(** * WireViz-Web: the HTTP route layer ([wireviz_web/server.py])

    A shallow embedding of the two route handlers of [server.py] and of the
    host primitives they call (temporary directories, files, subprocesses,
    [os.path.join], [pathlib.PurePath]), followed by the properties of the
    design sketch that concern them.

    Python [str] is [string] (a sequence of bytes, UTF-8 for what is not
    ASCII), [bytes] is [list byte], exceptions are the constructors of
    [Exn], and a call that may raise returns [Exn + A]. *)

From Stdlib Require Import ZArith List String Ascii Bool Lia.
From stdpp Require Import base gmap strings list pretty.

Local Open Scope Z_scope.

Abbreviation bytes := (list Byte.byte).

(** ** Exceptions *)

(** [subprocess.CalledProcessError(returncode, cmd, output=None, stderr=None)]. *)
Record ProcessError := mkProcessError {
  returncode : Z;
  cmd : list string;
  output : option string;
  stderr : option string
}.

Inductive Exn :=
| UnsupportedFormat (given : string)
| DecodeError
| BadRequest (field : string)
| ValueError (msg : string)
| OSError (call : string) (target : string)
| CalledProcessError (e : ProcessError)
| RuntimeError (msg : string) (cause : option ProcessError).

Definition Result (A : Type) : Type := Exn + A.

Definition rbind {A B} (r : Result A) (k : A → Result B) : Result B :=
  match r with
  | inl e => inl e
  | inr a => k a
  end.

(** ** String helpers (Python [str] methods used by the handlers) *)

Module Str.

Fixpoint startswith (p s : string) : bool :=
  match p, s with
  | EmptyString, _ => true
  | String a p', String b s' => Ascii.eqb a b && startswith p' s'
  | String _ _, EmptyString => false
  end.

Fixpoint endswith_char (c : ascii) (s : string) : bool :=
  match s with
  | EmptyString => false
  | String a EmptyString => Ascii.eqb a c
  | String _ s' => endswith_char c s'
  end.

(** [c in s] for a one-character [c]. *)
Fixpoint has_char (c : ascii) (s : string) : bool :=
  match s with
  | EmptyString => false
  | String a s' => Ascii.eqb a c || has_char c s'
  end.


(** [s.split(sep)]: never empty, [""] splits into one empty field. *)
Fixpoint split (sep : ascii) (s : string) : list string :=
  match s with
  | EmptyString => [EmptyString]
  | String c s' =>
      if Ascii.eqb c sep then EmptyString :: split sep s'
      else match split sep s' with
           | [] => [String c EmptyString]
           | f :: fs => String c f :: fs
           end
  end.

(** [sep.join(l)]. *)
Fixpoint join (sep : string) (l : list string) : string :=
  match l with
  | [] => ""
  | [x] => x
  | x :: rest => x +:+ sep +:+ join sep rest
  end.

End Str.

(** ** [wireviz_web.core]: the format negotiator *)

Module Core.

(** The closed set of output formats: vector and raster. *)
Inductive FormatToken := Vector | Raster.

(** Modelled from the spec: [wireviz_web.core] is not part of the sources at
    hand; only its imports in [server.py] are.  The design sketch fixes a
    bidirectional mapping over a closed set of two formats,
    ["image/svg+xml"] <-> ["svg"] and ["image/png"] <-> ["png"], which rejects
    every other input with [UnsupportedFormat] and matches the documented
    strings exactly. *)
Definition format_table : list (string * (FormatToken * string)) :=
  [ ("image/svg+xml", (Vector, "svg"));
    ("image/png",     (Raster, "png")) ].

Definition supported_mimetypes : list string := map fst format_table.
Definition supported_types : list string := map (λ r, snd (snd r)) format_table.

Fixpoint find_mimetype (tbl : list (string * (FormatToken * string))) (m : string)
  : option string :=
  match tbl with
  | [] => None
  | (m', (_, t)) :: rest => if String.eqb m m' then Some t else find_mimetype rest m
  end.

Fixpoint find_type (tbl : list (string * (FormatToken * string))) (t : string)
  : option string :=
  match tbl with
  | [] => None
  | (m, (_, t')) :: rest => if String.eqb t t' then Some m else find_type rest t
  end.

(** Modelled from the spec: [mimeTypeToToken], imported by [server.py] as
    [mimetype_to_type]; the token is the short string the handler compares
    with ["svg"] and pastes into file names. *)
Definition mimetype_to_type (mime_type : string) : Result string :=
  match find_mimetype format_table mime_type with
  | Some t => inr t
  | None => inl (UnsupportedFormat mime_type)
  end.

(** Modelled from the spec: [tokenToMimeType], imported by [server.py] as
    [type_to_mimetype]. *)
Definition type_to_mimetype (image_type : string) : Result string :=
  match find_type format_table image_type with
  | Some m => inr m
  | None => inl (UnsupportedFormat image_type)
  end.

(** *** The text decoder *)

(** Modelled from the spec: the alphabet of the text encoding.  The design
    sketch says only that it is not the standard base64 order; the route
    ([/plantuml/...], "PlantUML Text Encoding format") names the scheme,
    whose order is digits, upper case, lower case, [-], [_]. *)
Definition alphabet : string :=
  "0123456789ABCDEFGHIJKLMNOPQRSTUVWXYZabcdefghijklmnopqrstuvwxyz-_".

Fixpoint index_from (i : Z) (c : ascii) (s : string) : option Z :=
  match s with
  | EmptyString => None
  | String a s' => if Ascii.eqb a c then Some i else index_from (i + 1) c s'
  end.

(** The six bits a character stands for: its position in the alphabet. *)
Definition sextet (c : ascii) : option Z := index_from 0 c alphabet.

Fixpoint sextets (s : string) : option (list Z) :=
  match s with
  | EmptyString => Some []
  | String c s' =>
      match sextet c, sextets s' with
      | Some v, Some vs => Some (v :: vs)
      | _, _ => None
      end
  end.

(** Modelled from the spec: four characters give three bytes; two or three
    characters left over give one or two bytes.  One character left over
    holds no whole byte and is malformed, as in standard base64. *)
Fixpoint unpack (vs : list Z) : option (list Z) :=
  match vs with
  | [] => Some []
  | [_] => None
  | [a; b] => Some [Z.lor (Z.shiftl a 2) (Z.shiftr b 4)]
  | [a; b; c] =>
      Some [Z.lor (Z.shiftl a 2) (Z.shiftr b 4);
            Z.lor (Z.shiftl (Z.land b 15) 4) (Z.shiftr c 2)]
  | a :: b :: c :: d :: rest =>
      match unpack rest with
      | Some bs =>
          Some (Z.lor (Z.shiftl a 2) (Z.shiftr b 4)
                :: Z.lor (Z.shiftl (Z.land b 15) 4) (Z.shiftr c 2)
                :: Z.lor (Z.shiftl (Z.land c 3) 6) d
                :: bs)
      | None => None
      end
  end.

(** Step 1 of the decoder: characters to bytes (each a [Z] below 256). *)
Definition realphabetize (encoded : string) : Result (list Z) :=
  match sextets encoded with
  | Some vs =>
      match unpack vs with
      | Some bs => inr bs
      | None => inl DecodeError
      end
  | None => inl DecodeError
  end.

Definition text_of (bs : list Z) : string :=
  string_of_list_ascii (map (λ b, ascii_of_N (Z.to_N b)) bs).

(** Modelled from the spec: [decode], imported by [server.py] as
    [decode_plantuml].  Step 2, the inflation of a raw deflate stream, is the
    compression library's; [inflate] stands for it and answers [None] for a
    stream it cannot expand.  The text is UTF-8, which is what [string]
    holds. *)
Definition decode_plantuml (inflate : list Z → option (list Z)) (input_plantuml : string)
  : Result string :=
  rbind (realphabetize input_plantuml)
    (λ compressed,
       match inflate compressed with
       | Some raw => inr (text_of raw)
       | None => inl DecodeError
       end).

End Core.

(** ** The host: disk, temporary names, subprocesses *)

(** A location on disk is the list of its components below the root.  There
    are no symbolic links. *)
Abbreviation path := (list string).

Record Disk := mkDisk {
  files : gmap path bytes;
  dirs : gset path
}.

(** What a finished subprocess leaves behind: its exit status (negative when
    a signal killed it), what it printed, and the disk as it left it. *)
Record Outcome := mkOutcome {
  status : Z;
  out : string;
  err : string;
  after : Disk
}.

(** The parts of the host the handlers do not control: what a command line
    does when it is run on a disk, and the names of the signals. *)
Record Host := mkHost {
  run_process : list string → Disk → Outcome;
  signal_repr : Z → option string
}.

Inductive Event :=
| EvMkdtemp (name : string)
| EvOpenWrite (p : string)
| EvMakedirs (p : string)
| EvSave (p : string)
| EvExec (argv : list string) (seen : Disk)
| EvOpenRead (p : string)
| EvCleanup (name : string).

(** [faults] is the plan of host failures: every host call takes the next
    bit and fails with [OSError] when it is [true] (disk full, permission
    denied, no such executable).  [supply] holds the random suffixes
    [tempfile] will draw.  The server's standard streams, which a child
    process inherits, end in [console].  [log] records the host calls. *)
Record World := mkWorld {
  disk : Disk;
  cwd : path;
  tempdir : string;
  supply : list string;
  faults : list bool;
  console : list string;
  log : list Event
}.

Definition set_disk (d : Disk) (w : World) : World :=
  mkWorld d (cwd w) (tempdir w) (supply w) (faults w) (console w) (log w).
Definition set_supply (s : list string) (w : World) : World :=
  mkWorld (disk w) (cwd w) (tempdir w) s (faults w) (console w) (log w).
Definition set_faults (f : list bool) (w : World) : World :=
  mkWorld (disk w) (cwd w) (tempdir w) (supply w) f (console w) (log w).
Definition print (lines : list string) (w : World) : World :=
  mkWorld (disk w) (cwd w) (tempdir w) (supply w) (faults w) (console w ++ lines) (log w).
Definition emit (ev : Event) (w : World) : World :=
  mkWorld (disk w) (cwd w) (tempdir w) (supply w) (faults w) (console w) (log w ++ [ev]).

(** *** Paths *)

Module Path.

(** [posixpath.join(a, b)]. *)
Definition join (a b : string) : string :=
  if Str.startswith "/" b then b
  else if String.eqb a "" || Str.endswith_char "/" a then a +:+ b
  else a +:+ "/" +:+ b.

Definition is_absolute (p : string) : bool := Str.startswith "/" p.

Definition components (p : string) : list string := Str.split "/" p.

Definition step (cur : path) (c : string) : path :=
  if String.eqb c "" || String.eqb c "." then cur
  else if String.eqb c ".." then removelast cur
  else cur ++ [c].

(** The location a path string names, read component by component. *)
Definition key (cwd : path) (p : string) : path :=
  fold_left step (components p) (if is_absolute p then [] else cwd).

(** Following the components through directories that exist. *)
Fixpoint walk (ds : gset path) (cur : path) (cs : list string) : option path :=
  match cs with
  | [] => Some cur
  | c :: rest =>
      if String.eqb c "" || String.eqb c "." then walk ds cur rest
      else if String.eqb c ".." then walk ds (removelast cur) rest
      else if decide (cur ++ [c] ∈ ds) then walk ds (cur ++ [c]) rest
      else None
  end.

(** A final component that can name a file. *)
Definition is_leaf (c : string) : bool :=
  negb (String.eqb c "" || String.eqb c "." || String.eqb c "..").

(** A path string with a NUL byte never reaches the host: Python refuses
    it with [ValueError: embedded null byte]. *)
Definition has_nul (p : string) : bool := Str.has_char "000" p.

(** The host's limits on a path string, in bytes: [NAME_MAX] for one
    component and [PATH_MAX] for the whole string with its final NUL (255
    and 4096 on Linux).  A string over either is refused ([ENAMETOOLONG]). *)
Definition NAME_MAX : Z := 255.
Definition PATH_MAX : Z := 4096.

Definition fits (p : string) : bool :=
  (Z.of_nat (String.length p) <? PATH_MAX) &&
  forallb (λ c, Z.of_nat (String.length c) <=? NAME_MAX) (components p).

(** The location of an entry to be created or opened at [p]: the string
    fits, every directory on the way exists and the last component is a
    name. *)
Definition entry (d : Disk) (cwd : path) (p : string) : option path :=
  let cs := components p in
  if fits p && is_leaf (List.last cs "") then
    match walk (dirs d) (if is_absolute p then [] else cwd) (removelast cs) with
    | Some parent => Some (parent ++ [List.last cs ""])
    | None => None
    end
  else None.

(** Following the components as [walk] does, whether the way is barred by a
    file: a component that is a file where a directory has to be
    ([ENOTDIR]).  A component that is not there at all bars nothing. *)
Fixpoint meets_file (fs : gmap path bytes) (ds : gset path) (cur : path)
    (cs : list string) : bool :=
  match cs with
  | [] => false
  | c :: rest =>
      if String.eqb c "" || String.eqb c "." then meets_file fs ds cur rest
      else if String.eqb c ".." then meets_file fs ds (removelast cur) rest
      else if decide (cur ++ [c] ∈ ds) then meets_file fs ds (cur ++ [c]) rest
      else bool_decide (is_Some (fs !! (cur ++ [c])))
  end.

Definition under (top k : path) : Prop := top `prefix_of` k.

End Path.

(** *** Disk operations *)

Module Fs.

(** [open(p, "wb")] followed by a write of [data]. *)
Definition write (cwd : path) (p : string) (data : bytes) (d : Disk) : option Disk :=
  match Path.entry d cwd p with
  | Some k =>
      if decide (k ∈ dirs d) then None
      else Some (mkDisk (<[k := data]> (files d)) (dirs d))
  | None => None
  end.

(** [open(p, "rb")] followed by a read to the end. *)
Definition read (cwd : path) (p : string) (d : Disk) : option bytes :=
  match Path.entry d cwd p with
  | Some k => files d !! k
  | None => None
  end.

(** [os.makedirs(p, exist_ok=True)]: every missing directory on the way is
    created; a file in the way is an error. *)
Fixpoint mkdirs (fs : gmap path bytes) (ds : gset path) (cur : path) (cs : list string)
  : option (gset path) :=
  match cs with
  | [] => Some ds
  | c :: rest =>
      if String.eqb c "" || String.eqb c "." then mkdirs fs ds cur rest
      else if String.eqb c ".." then mkdirs fs ds (removelast cur) rest
      else match fs !! (cur ++ [c]) with
           | Some _ => None
           | None => mkdirs fs ({[cur ++ [c]]} ∪ ds) (cur ++ [c]) rest
           end
  end.

Definition makedirs (cwd : path) (p : string) (d : Disk) : option Disk :=
  if Path.fits p then
    match mkdirs (files d) (dirs d) (if Path.is_absolute p then [] else cwd)
                 (Path.components p) with
    | Some ds => Some (mkDisk (files d) ds)
    | None => None
    end
  else None.

(** The tree at [top] removed: it and everything below go. *)
Definition rmtree (top : path) (d : Disk) : Disk :=
  mkDisk (filter (λ kv, ¬ Path.under top kv.1) (files d))
         (filter (λ k, ¬ Path.under top k) (dirs d)).

(** [shutil.rmtree(p)] with the error handler of [tempfile]: a path barred
    by a file, or that is a file itself, is an error
    ([NotADirectoryError]) and nothing is removed; a directory that is not
    there any more is none ([FileNotFoundError] is passed over); otherwise
    the tree at the path's location goes.  The location is read off the
    string component by component; on a disk that is a tree, nothing lies
    below a location that cannot be reached. *)
Definition rmtree_at (cwd : path) (p : string) (d : Disk) : option Disk :=
  if Path.meets_file (files d) (dirs d) (if Path.is_absolute p then [] else cwd)
       (Path.components p)
  then None
  else Some (rmtree (Path.key cwd p) d).

End Fs.

(** A component that is not empty; empty ones come from a doubled or a
    trailing slash and name nothing. *)
Definition nonempty (c : string) : bool := negb (String.eqb c "").

(** The directory a path string names, when every component exists. *)
Definition directory (d : Disk) (cwd : path) (p : string) : option path :=
  Path.walk (dirs d) (if Path.is_absolute p then [] else cwd) (Path.components p).

(** *** Computations on the world that may raise *)

Definition M (A : Type) : Type := World → Result A * World.

Definition ret {A} (a : A) : M A := λ w, (inr a, w).
Definition raise {A} (e : Exn) : M A := λ w, (inl e, w).
Definition bind {A B} (m : M A) (k : A → M B) : M B := λ w,
  match m w with
  | (inl e, w') => (inl e, w')
  | (inr a, w') => k a w'
  end.
Definition lift {A} (r : Result A) : M A := λ w, (r, w).

Notation "x <- m ;; k" := (bind m (λ x, k))
  (at level 100, m at next level, right associativity).
Notation "m ;; k" := (bind m (λ _, k))
  (at level 100, right associativity).

(** [try: body except CalledProcessError as e: handler(e)]. *)
Definition try_except {A} (body : M A) (handler : ProcessError → M A) : M A := λ w,
  match body w with
  | (inl (CalledProcessError e), w') => handler e w'
  | r => r
  end.

(** [for x in xs: body(x)]. *)
Fixpoint for_each {A} (xs : list A) (body : A → M unit) : M unit :=
  match xs with
  | [] => ret tt
  | x :: rest => body x ;; for_each rest body
  end.

(** A host call: failed by the fault plan or by the state of the disk. *)
Definition host_call {A} (call target : string)
    (f : World → option (A * World)) : M A := λ w,
  let w1 := set_faults (tail (faults w)) w in
  match faults w with
  | true :: _ => (inl (OSError call target), w1)
  | _ => match f w1 with
         | Some (a, w2) => (inr a, w2)
         | None => (inl (OSError call target), w1)
         end
  end.

Definition logged {A} (ev : Event) (m : M A) : M A := λ w, m (emit ev w).

Definition open_write (p : string) (data : bytes) : M unit :=
  logged (EvOpenWrite p) $ host_call "open" p
    (λ w, d ← Fs.write (cwd w) p data (disk w); Some (tt, set_disk d w)).

Definition open_read (p : string) : M bytes :=
  logged (EvOpenRead p) $ host_call "open" p
    (λ w, b ← Fs.read (cwd w) p (disk w); Some (b, w)).

Definition makedirs (p : string) : M unit :=
  logged (EvMakedirs p) $ host_call "makedirs" p
    (λ w, d ← Fs.makedirs (cwd w) p (disk w); Some (tt, set_disk d w)).

(** [tempfile.mkdtemp()]: the first candidate name that is free becomes a new
    directory below [tempdir]; a taken name is skipped. *)
Fixpoint mkdtemp_from (w : World) (candidates : list string) : option (string * World) :=
  match candidates with
  | [] => None
  | sfx :: rest =>
      let name := Path.join (tempdir w) ("tmp" +:+ sfx) in
      match Path.entry (disk w) (cwd w) name with
      | None => None
      | Some k =>
          if decide (k ∈ dirs (disk w)) then mkdtemp_from w rest
          else match files (disk w) !! k with
               | Some _ => mkdtemp_from w rest
               | None =>
                   Some (name, set_supply rest
                           (set_disk (mkDisk (files (disk w)) ({[k]} ∪ dirs (disk w))) w))
               end
      end
  end.

Definition mkdtemp : M string := λ w,
  match host_call "mkdtemp" (tempdir w) (λ w, mkdtemp_from w (supply w)) w with
  | (inr name, w') => (inr name, emit (EvMkdtemp name) w')
  | r => r
  end.

(** [TemporaryDirectory.cleanup()]: a host call like the others, which
    can fail and then leaves what is there. *)
Definition cleanup (name : string) : M unit :=
  logged (EvCleanup name) $ host_call "rmtree" name
    (λ w, d ← Fs.rmtree_at (cwd w) name (disk w); Some (tt, set_disk d w)).

(** [with tempfile.TemporaryDirectory() as tmp: body(tmp)]: when the block
    is left, by its end or by an exception, the directory is cleaned up; if
    the cleanup raises, its exception is the one that leaves the [with]
    statement, in place of the block's result or exception. *)
Definition with_TemporaryDirectory {A} (body : string → M A) : M A := λ w,
  match mkdtemp w with
  | (inl e, w1) => (inl e, w1)
  | (inr tmp, w1) =>
      let '(r, w2) := body tmp w1 in
      let '(rc, w3) := cleanup tmp w2 in
      (match rc with inl e => inl e | inr _ => r end, w3)
  end.

(** [FileStorage.save(dst)]: [open(dst, "wb")] and a copy of the stream.
    [dst] holds the client's file name, so it can be any string: one with a
    NUL byte is refused by [open] before the host is asked. *)
Definition save (data : bytes) (dst : string) : M unit :=
  logged (EvSave dst) $
    if Path.has_nul dst then raise (ValueError "embedded null byte")
    else host_call "save" dst
           (λ w, d ← Fs.write (cwd w) dst data (disk w); Some (tt, set_disk d w)).

(** ** [pathlib.PurePath] (POSIX flavour) *)

Module PurePath.

Record t := mk { root : string; parts : list string }.

Definition keep (c : string) : bool := negb (String.eqb c "" || String.eqb c ".").

(** [PurePath(s)]: the root is ["//"] for exactly two leading slashes and
    ["/"] for any other number; empty and ["."] components are dropped. *)
Definition parse (s : string) : t :=
  mk (if Str.startswith "//" s && negb (Str.startswith "///" s) then "//"
      else if Str.startswith "/" s then "/" else "")
     (List.filter keep (Str.split "/" s)).

Definition name (p : t) : string := List.last (parts p) "".

(** [s.rfind(c)], [-1] when [c] does not occur. *)
Fixpoint rfind (c : ascii) (s : string) : Z :=
  match s with
  | EmptyString => -1
  | String a s' =>
      let i := rfind c s' in
      if 0 <=? i then i + 1 else if Ascii.eqb a c then 0 else -1
  end.

Definition strlen (s : string) : Z := Z.of_nat (String.length s).

(** [s[i:j]] for [0 <= i <= j]. *)
Definition slice (s : string) (i j : Z) : string :=
  String.substring (Z.to_nat i) (Z.to_nat (j - i)) s.

Definition has_suffix (n : string) : bool :=
  let i := rfind "." n in (0 <? i) && (i <? strlen n - 1).

Definition suffix (p : t) : string :=
  let n := name p in
  if has_suffix n then slice n (rfind "." n) (strlen n) else "".

Definition stem (p : t) : string :=
  let n := name p in
  if has_suffix n then slice n 0 (rfind "." n) else n.

Definition with_suffix (p : t) (sfx : string) : Result t :=
  if Str.has_char "/" sfx then inl (ValueError "Invalid suffix")
  else if (negb (String.eqb sfx "") && negb (Str.startswith "." sfx))
          || String.eqb sfx "." then inl (ValueError "Invalid suffix")
  else
    let n := name p in
    if String.eqb n "" then inl (ValueError "has an empty name")
    else
      let old_suffix := suffix p in
      let n' := if String.eqb old_suffix "" then n +:+ sfx
                else slice n 0 (strlen n - strlen old_suffix) +:+ sfx in
      inr (mk (root p) (removelast (parts p) ++ [n'])).

End PurePath.

(** ** [repr] and [subprocess] *)

Module Py.

Definition dquote : ascii := "034".

Definition hex_digit (n : nat) : ascii :=
  nth n (list_ascii_of_string "0123456789abcdef") "0"%char.

(** One character of [repr(s)].  Bytes from 128 on are parts of a character
    outside ASCII and are copied, as [repr] does for printable characters. *)
Definition repr_char (quote c : ascii) : string :=
  let n := nat_of_ascii c in
  if Ascii.eqb c quote || Ascii.eqb c "\" then String "\" (String c "")
  else if Ascii.eqb c "009" then "\t"
  else if Ascii.eqb c "010" then "\n"
  else if Ascii.eqb c "013" then "\r"
  else if (n <? 32)%nat || (n =? 127)%nat
       then String "\" (String "x" (String (hex_digit (n / 16)) (String (hex_digit (n mod 16)) "")))
  else String c "".

Fixpoint repr_body (quote : ascii) (s : string) : string :=
  match s with
  | EmptyString => ""
  | String c s' => repr_char quote c +:+ repr_body quote s'
  end.

(** [repr(s)]: double quotes only when [s] has a single quote and no
    double quote. *)
Definition repr_str (s : string) : string :=
  let quote := if Str.has_char "'" s && negb (Str.has_char dquote s)
               then dquote else "'"%char in
  String quote (repr_body quote s +:+ String quote "").

(** [repr(l)] for a list of [str]. *)
Definition repr_list (l : list string) : string :=
  "[" +:+ Str.join ", " (map repr_str l) +:+ "]".

(** [x or default] for an optional [str]: [None] and [""] are false. *)
Definition or_else (x : option string) (default : string) : string :=
  match x with
  | Some s => if String.eqb s "" then default else s
  | None => default
  end.

(** [CalledProcessError.__str__]. *)
Definition CalledProcessError_str (h : Host) (e : ProcessError) : string :=
  if returncode e <? 0 then
    match signal_repr h (- returncode e) with
    | Some sig => "Command '" +:+ repr_list (cmd e) +:+ "' died with " +:+ sig +:+ "."
    | None => "Command '" +:+ repr_list (cmd e) +:+ "' died with unknown signal "
                +:+ pretty (- returncode e) +:+ "."
    end
  else "Command '" +:+ repr_list (cmd e) +:+ "' returned non-zero exit status "
         +:+ pretty (returncode e) +:+ ".".

(** [subprocess.check_call(argv)]: the child inherits the server's standard
    streams, so what it prints goes to the console and not to the caller. *)
Definition check_call (h : Host) (argv : list string) : M unit :=
  rc <- host_call "exec" (hd "" argv)
          (λ w, let o := run_process h argv (disk w) in
                Some (status o,
                      print [out o; err o]
                        (set_disk (after o) (emit (EvExec argv (disk w)) w)))) ;;
  if rc =? 0 then ret tt
  else raise (CalledProcessError (mkProcessError rc argv None None)).

End Py.

(** ** Requests and responses *)

(** [werkzeug.datastructures.FileStorage]: the client's file name, as sent,
    and the content. *)
Record FileStorage := mkFile {
  filename : string;
  stream : bytes
}.

Record Request := mkRequest {
  accept : option string;
  yml_file : option FileStorage;
  images : list FileStorage
}.

Record Response := mkResponse {
  body : bytes;
  mimetype : string;
  headers : list (string * string)
}.

(** [file_upload.parse_args()]: [yml_file] is required. *)
Definition parse_args (request : Request) : M FileStorage :=
  match yml_file request with
  | Some f => ret f
  | None => raise (BadRequest "yml_file")
  end.

(** ** [POST /render] *)

Module RenderRegular.

(** The argument list of the engine, lines 84 to 86. *)
Definition command (src tmp fmt : string) : list string :=
  ["wireviz"; src; "-o"; tmp] ++ (if String.eqb fmt "svg" then [] else ["-f"; fmt]).

(** Lines 71 to 80: the description and the images are written. *)
Definition stage (yaml_input : bytes) (images : list FileStorage) (tmp : string)
  : M unit :=
  let src := Path.join tmp "input.yml" in
  open_write src yaml_input ;;
  match images with
  | [] => ret tt
  | _ =>
      let resdir := Path.join tmp "resources" in
      makedirs resdir ;;
      for_each images (λ img, save (stream img) (Path.join resdir (filename img)))
  end.

(** Lines 83 to 89: the engine is run; its failure becomes a [RuntimeError]. *)
Definition invoke (h : Host) (src tmp fmt : string) : M unit :=
  try_except
    (Py.check_call h (command src tmp fmt))
    (λ e, raise (RuntimeError ("WireViz failed: " +:+ Py.CalledProcessError_str h e)
                              (Some e))).

(** Lines 92 to 94: the file the engine wrote is read. *)
Definition collect (src tmp fmt : string) : M bytes :=
  let out_file := Path.join tmp (PurePath.stem (PurePath.parse src) +:+ "." +:+ fmt) in
  open_read out_file.

(** The block under [with tempfile.TemporaryDirectory() as tmp]. *)
Definition render (h : Host) (yaml_input : bytes) (images : list FileStorage)
    (fmt : string) (tmp : string) : M bytes :=
  let src := Path.join tmp "input.yml" in
  stage yaml_input images tmp ;;
  invoke h src tmp fmt ;;
  collect src tmp fmt.

Definition post (h : Host) (request : Request) : M Response :=
  let mimetype := Py.or_else (accept request) "image/svg+xml" in
  args <- parse_args request ;;
  let yaml_input := stream args in
  let images := images request in
  let input_filename := filename args in
  fmt <- lift (Core.mimetype_to_type mimetype) ;;
  output_filename <-
    lift (rbind (PurePath.with_suffix (PurePath.parse input_filename) ("." +:+ fmt))
                (λ p, inr (PurePath.name p))) ;;
  payload <- with_TemporaryDirectory (render h yaml_input images fmt) ;;
  ret (mkResponse payload mimetype
         [("Content-Disposition", "attachment; filename=" +:+ output_filename)]).

End RenderRegular.

(** ** [GET /plantuml/<imagetype>/<encoded>] *)

Module RenderPlantUML.

(** [wireviz_render] is the renderer of [wireviz_web.core]; the handler
    only hands it the decoded text, the MIME type and the file name. *)
Definition get (inflate : list Z → option (list Z))
    (wireviz_render : string → string → string → M Response)
    (imagetype encoded : string) : M Response :=
  mimetype <- lift (Core.type_to_mimetype imagetype) ;;
  yaml_input <- lift (Core.decode_plantuml inflate encoded) ;;
  wireviz_render yaml_input mimetype ("rendered." +:+ imagetype).

End RenderPlantUML.

(** ** A small host to run the handler on *)

Module Demo.

Definition data (s : string) : bytes := String.list_byte_of_string s.

(** An engine that does what it is asked: for
    [wireviz src -o dir] or [wireviz src -o dir -f fmt] it leaves
    [dir/input.<fmt>] and exits with status 0. *)
Definition engine_ok (argv : list string) (d : Disk) : Outcome :=
  match argv with
  | [_; _; _; dir] =>
      mkOutcome 0 "" ""
        (mkDisk (<[Path.key [] (Path.join dir "input.svg") := data "<svg/>"]> (files d))
                (dirs d))
  | [_; _; _; dir; _; fmt] =>
      mkOutcome 0 "" ""
        (mkDisk (<[Path.key [] (Path.join dir ("input." +:+ fmt)) := data "PNG"]> (files d))
                (dirs d))
  | _ => mkOutcome 2 "" "usage: wireviz" d
  end.

(** An engine that rejects its input: a partial file, a complaint on its
    standard error, exit status 1. *)
Definition engine_bad (argv : list string) (d : Disk) : Outcome :=
  match argv with
  | _ :: _ :: _ :: dir :: _ =>
      mkOutcome 1 "" "yaml: mapping values are not allowed here"
        (mkDisk (<[Path.key [] (Path.join dir "input.gv") := data "digraph"]> (files d))
                (dirs d))
  | _ => mkOutcome 2 "" "usage: wireviz" d
  end.

Definition host_ok : Host := mkHost engine_ok (λ _, None).
Definition host_bad : Host := mkHost engine_bad (λ _, None).

(** A server in [/srv] with an empty [/tmp]. *)
Definition world : World :=
  mkWorld (mkDisk ∅ {[ ["tmp"]; ["srv"] ]}) ["srv"] "/tmp" ["k3x9q2ab"] [] [] [].

Definition harness : FileStorage := mkFile "demo01.yaml" (data "connectors: {}").

Definition request (a : option string) (imgs : list FileStorage) : Request :=
  mkRequest a (Some harness) imgs.

(** The temporary directory [world] hands out, the disk once the harness
    alone has been staged, and the command line for a PNG. *)
Definition tmp : string := "/tmp/tmpk3x9q2ab".

Definition staged : Disk :=
  mkDisk {[ ["tmp"; "tmpk3x9q2ab"; "input.yml"] := data "connectors: {}" ]}
         {[ ["tmp"]; ["srv"]; ["tmp"; "tmpk3x9q2ab"] ]}.

Definition argv_png : list string :=
  ["wireviz"; "/tmp/tmpk3x9q2ab/input.yml"; "-o"; "/tmp/tmpk3x9q2ab"; "-f"; "png"].

(** Two uploads called [a.png], and two file fields left empty in a form
    (a browser sends each as a part with an empty file name). *)
Definition twice : list FileStorage :=
  [mkFile "a.png" (data "first"); mkFile "a.png" (data "second")].

Definition unnamed : list FileStorage := [mkFile "" []; mkFile "" []].



(** An upload whose file name is an absolute path. *)
Definition stray : list FileStorage := [mkFile "/srv/stray.png" (data "stray")].

(** Two uploads whose one file name climbs out of [resources]. *)
Definition climbing : list FileStorage :=
  [mkFile "../input.yml" (data "one"); mkFile "../input.yml" (data "two")].

(** An engine that fails and leaves a file where its output directory was:
    the directory and what was in it are gone. *)
Definition engine_squat (argv : list string) (d : Disk) : Outcome :=
  match argv with
  | _ :: _ :: _ :: dir :: _ =>
      let k := Path.key [] dir in
      mkOutcome 1 "" "wireviz: cannot write"
        (mkDisk (<[k := data "lock"]> (files (Fs.rmtree k d))) (dirs (Fs.rmtree k d)))
  | _ => mkOutcome 2 "" "usage: wireviz" d
  end.

Definition host_squat : Host := mkHost engine_squat (λ _, None).


(** A PNG is asked for and the engine rejects the description. *)
Definition run_bad : Result Response * World :=
  RenderRegular.post host_bad (request (Some "image/png") []) world.

(** A decompressor for streams of stored blocks only, the one kind of
    deflate block that holds its bytes as they are: a header byte with the
    final-block bit and block type 0, the length and its complement, the
    bytes.  The empty stream inflates to nothing. *)
Fixpoint inflate_stored (fuel : nat) (bs : list Z) : option (list Z) :=
  match fuel, bs with
  | _, [] => Some []
  | S fuel', hdr :: l0 :: l1 :: n0 :: n1 :: rest =>
      let len := l0 + 256 * l1 in
      if (Z.land (Z.shiftr hdr 1) 3 =? 0) && (len + (n0 + 256 * n1) =? 65535)
         && (len <=? Z.of_nat (length rest))
      then
        if Z.testbit hdr 0 then Some (firstn (Z.to_nat len) rest)
        else match inflate_stored fuel' (skipn (Z.to_nat len) rest) with
             | Some more => Some (firstn (Z.to_nat len) rest ++ more)
             | None => None
             end
      else None
  | _, _ => None
  end.

Definition inflate (bs : list Z) : option (list Z) := inflate_stored (length bs) bs.

End Demo.

(** ** Describing runs *)

(** Every run of [m] keeps the working directory and appends to the log
    only events that satisfy [P]. *)
Definition emits {A} (P : Event → Prop) (m : M A) : Prop :=
  ∀ w r w', m w = (r, w') →
    cwd w' = cwd w ∧ ∃ evs, log w' = log w ++ evs ∧ Forall P evs.

(** The host calls of the block under [with], for a given temporary
    directory and format. *)
Inductive render_event (tmp fmt : string) : Event → Prop :=
| re_write : render_event tmp fmt (EvOpenWrite (Path.join tmp "input.yml"))
| re_makedirs : render_event tmp fmt (EvMakedirs (Path.join tmp "resources"))
| re_save n : render_event tmp fmt (EvSave (Path.join (Path.join tmp "resources") n))
| re_exec seen :
    render_event tmp fmt (EvExec (RenderRegular.command (Path.join tmp "input.yml") tmp fmt) seen)
| re_read :
    render_event tmp fmt
      (EvOpenRead (Path.join tmp
         (PurePath.stem (PurePath.parse (Path.join tmp "input.yml")) +:+ "." +:+ fmt))).

(** The result of a [with] block whose cleanup ended in [rc]: a cleanup
    that raises takes the place of what the block gave. *)
Definition leave {A} (rc : Result unit) (r : Result A) : Result A :=
  match rc with
  | inl e => inl e
  | inr _ => r
  end.

(** The response made of the bytes read, for the name [p] of the download. *)
Definition answer (req : Request) (p : PurePath.t) (rr : Result bytes) : Result Response :=
  match rr with
  | inl e => inl e
  | inr payload =>
      inr (mkResponse payload (Py.or_else (accept req) "image/svg+xml")
             [("Content-Disposition", "attachment; filename=" +:+ PurePath.name p)])
  end.

(** How the cleanup of [tmp] ended on the disk [d] the block left: the tree
    at [top] is removed, or the removal failed and the disk is as it was. *)
Definition swept (tmp : string) (top : path) (d : Disk) (rc : Result unit) (d' : Disk)
  : Prop :=
  (rc = inr tt ∧ d' = Fs.rmtree top d) ∨ (rc = inl (OSError "rmtree" tmp) ∧ d' = d).

(** The errors staging can end in: a failed host call, or an upload whose
    target has a NUL byte. *)
Definition stage_failure (tmp : string) (imgs : list FileStorage) (e : Exn) : Prop :=
  (∃ c t, e = OSError c t) ∨
  (e = ValueError "embedded null byte" ∧
   ∃ img, In img imgs ∧
     Path.has_nul (Path.join (Path.join tmp "resources") (filename img)) = true).

(** The three ways a request can go: refused before anything touches the
    disk, no temporary directory to be had, or the block under [with] is run
    and the directory cleaned up behind it. *)
Inductive post_run (h : Host) (req : Request) (w : World)
  : Result Response → World → Prop :=
| run_refused e :
    (yml_file req = None ∨
     (∃ f, yml_file req = Some f ∧
        rbind (Core.mimetype_to_type (Py.or_else (accept req) "image/svg+xml"))
          (λ fmt, PurePath.with_suffix (PurePath.parse (filename f)) ("." +:+ fmt))
        = inl e)) →
    post_run h req w (inl e) w
| run_no_tempdir f fmt p e w1 :
    yml_file req = Some f →
    Core.mimetype_to_type (Py.or_else (accept req) "image/svg+xml") = inr fmt →
    PurePath.with_suffix (PurePath.parse (filename f)) ("." +:+ fmt) = inr p →
    mkdtemp w = (inl e, w1) →
    post_run h req w (inl e) w1
| run_rendered f fmt p tmp w1 rr w2 rc w3 :
    yml_file req = Some f →
    Core.mimetype_to_type (Py.or_else (accept req) "image/svg+xml") = inr fmt →
    PurePath.with_suffix (PurePath.parse (filename f)) ("." +:+ fmt) = inr p →
    mkdtemp w = (inr tmp, w1) →
    RenderRegular.render h (stream f) (images req) fmt tmp w1 = (rr, w2) →
    cleanup tmp w2 = (rc, w3) →
    post_run h req w (answer req p (leave rc rr)) w3.

(** Staging logs writes, never a run of the engine. *)
Inductive stage_event (tmp : string) : Event → Prop :=
| se_write : stage_event tmp (EvOpenWrite (Path.join tmp "input.yml"))
| se_makedirs : stage_event tmp (EvMakedirs (Path.join tmp "resources"))
| se_save n : stage_event tmp (EvSave (Path.join (Path.join tmp "resources") n)).

(** Two results of the handler that differ at most in the headers of the
    response. *)
Definition same_but_headers (r r' : Result Response) : Prop :=
  match r, r' with
  | inl e, inl e' => e = e'
  | inr a, inr b => body a = body b ∧ mimetype a = mimetype b
  | _, _ => False
  end.

(** The request with the description uploaded under another file name. *)
Definition renamed (req : Request) (n : string) : Request :=
  mkRequest (accept req)
    (match yml_file req with
     | Some f => Some (mkFile n (stream f))
     | None => None
     end)
    (images req).

(** ** Uploaded images *)

(** A file name that is a single component: no slash, and not empty, [.]
    or [..]. *)
Definition plain (n : string) : bool :=
  negb (Str.has_char "/" n) && Path.is_leaf n.

(** The content of the last of the uploads called [n]. *)
Fixpoint latest (imgs : list FileStorage) (n : string) : option bytes :=
  match imgs with
  | [] => None
  | img :: rest =>
      match latest rest n with
      | Some b => Some b
      | None => if String.eqb (filename img) n then Some (stream img) else None
      end
  end.

(** ** The course of a request *)

(** The host calls of staging when none of them fails, in their order: the
    description, then, if there are uploads, the [resources] directory and
    each upload in turn. *)
Definition stage_plan (tmp : string) (images : list FileStorage) : list Event :=
  EvOpenWrite (Path.join tmp "input.yml") ::
  match images with
  | [] => []
  | _ =>
      EvMakedirs (Path.join tmp "resources") ::
      map (λ img, EvSave (Path.join (Path.join tmp "resources") (filename img))) images
  end.

(** A computation that prints nothing and fails with [OSError] only. *)
Definition io {A} (m : M A) : Prop :=
  ∀ w r w', m w = (r, w') →
    console w' = console w ∧ ∀ e, r = inl e → ∃ c t, e = OSError c t.

(** The engine has run on the world [ws] and left [w']: the run is logged
    with the disk it saw, the disk is the one it left, what it printed is on
    the console. *)
Definition engine_ran (h : Host) (tmp fmt : string) (ws w' : World) : Prop :=
  let argv := RenderRegular.command (Path.join tmp "input.yml") tmp fmt in
  let o := run_process h argv (disk ws) in
  log w' = log ws ++ [EvExec argv (disk ws)] ∧
  disk w' = after o ∧
  console w' = console ws ++ [out o; err o] ∧
  cwd w' = cwd ws.

Definition engine_status (h : Host) (tmp fmt : string) (ws : World) : Z :=
  status (run_process h
            (RenderRegular.command (Path.join tmp "input.yml") tmp fmt) (disk ws)).

(** The four ways the block under [with] can go: staging fails; the engine
    cannot be started; it runs and fails; it runs to status 0 and its output
    file is read, or is not there to be read. *)
Inductive render_course (h : Host) (yaml : bytes) (imgs : list FileStorage)
    (fmt tmp : string) (w : World) : Result bytes → World → Prop :=
| rc_stage_failed e ws :
    RenderRegular.stage yaml imgs tmp w = (inl e, ws) →
    stage_failure tmp imgs e →
    render_course h yaml imgs fmt tmp w (inl e) ws
| rc_not_started c t ws w' :
    RenderRegular.stage yaml imgs tmp w = (inr tt, ws) →
    log w' = log ws → disk w' = disk ws → console w' = console ws → cwd w' = cwd ws →
    render_course h yaml imgs fmt tmp w (inl (OSError c t)) w'
| rc_engine_failed ws w' :
    RenderRegular.stage yaml imgs tmp w = (inr tt, ws) →
    engine_ran h tmp fmt ws w' →
    engine_status h tmp fmt ws ≠ 0 →
    let e := mkProcessError (engine_status h tmp fmt ws)
               (RenderRegular.command (Path.join tmp "input.yml") tmp fmt) None None in
    render_course h yaml imgs fmt tmp w
      (inl (RuntimeError ("WireViz failed: " +:+ Py.CalledProcessError_str h e) (Some e)))
      w'
| rc_engine_done ws wi r w' :
    RenderRegular.stage yaml imgs tmp w = (inr tt, ws) →
    engine_ran h tmp fmt ws wi →
    engine_status h tmp fmt ws = 0 →
    log w' = log wi ++ [EvOpenRead (Path.join tmp ("input." +:+ fmt))] →
    disk w' = disk wi → console w' = console wi → cwd w' = cwd wi →
    (r = inl (OSError "open" (Path.join tmp ("input." +:+ fmt))) ∨
     ∃ b, r = inr b ∧
          Fs.read (cwd wi) (Path.join tmp ("input." +:+ fmt)) (disk wi) = Some b) →
    render_course h yaml imgs fmt tmp w r w'.

(** The ways a request can go: no description, no format, no name to
    put a suffix on (all three before the host is touched), no temporary
    directory, or the block under [with] takes its course and the temporary
    directory is cleaned up behind it. *)
Inductive post_course (h : Host) (req : Request) (w : World)
  : Result Response → World → Prop :=
| pc_no_file :
    yml_file req = None →
    post_course h req w (inl (BadRequest "yml_file")) w
| pc_no_format f e :
    yml_file req = Some f →
    Core.mimetype_to_type (Py.or_else (accept req) "image/svg+xml") = inl e →
    post_course h req w (inl e) w
| pc_no_name f fmt msg :
    yml_file req = Some f →
    Core.mimetype_to_type (Py.or_else (accept req) "image/svg+xml") = inr fmt →
    PurePath.with_suffix (PurePath.parse (filename f)) ("." +:+ fmt)
    = inl (ValueError msg) →
    post_course h req w (inl (ValueError msg)) w
| pc_no_tempdir f fmt p c t w1 :
    yml_file req = Some f →
    Core.mimetype_to_type (Py.or_else (accept req) "image/svg+xml") = inr fmt →
    PurePath.with_suffix (PurePath.parse (filename f)) ("." +:+ fmt) = inr p →
    mkdtemp w = (inl (OSError c t), w1) →
    post_course h req w (inl (OSError c t)) w1
| pc_rendered f fmt p tmp w1 rr w2 rc w3 :
    yml_file req = Some f →
    Core.mimetype_to_type (Py.or_else (accept req) "image/svg+xml") = inr fmt →
    PurePath.with_suffix (PurePath.parse (filename f)) ("." +:+ fmt) = inr p →
    mkdtemp w = (inr tmp, w1) →
    render_course h (stream f) (images req) fmt tmp w1 rr w2 →
    cleanup tmp w2 = (rc, w3) →
    post_course h req w (answer req p (leave rc rr)) w3.

(** What a request that got its temporary directory [tmp] leaves behind,
    the block under [with] having given [r] and the cleanup having ended in
    [rc].  Either the engine never ran: staging got as far as [tried] and
    ended in [ws], and the disk is that of [ws], swept.  Or staging went
    through, the engine ran once on the staged disk and printed on the
    console, then its output file was read if its status was 0; the disk is
    the one the engine left, swept. *)
Definition never_ran (tmp : string) (tried : list Event) (ws w w' : World)
    (rc : Result unit) : Prop :=
  log w' = log w ++ EvMkdtemp tmp :: tried ++ [EvCleanup tmp] ∧
  console w' = console w ∧
  swept tmp (Path.key (cwd w) tmp) (disk ws) rc (disk w').

Definition ran_once (h : Host) (fmt tmp : string) (plan : list Event)
    (ws w w' : World) (r : Result bytes) (rc : Result unit) : Prop :=
  let argv := RenderRegular.command (Path.join tmp "input.yml") tmp fmt in
  let o := run_process h argv (disk ws) in
  let out_file := Path.join tmp ("input." +:+ fmt) in
  console w' = console w ++ [out o; err o] ∧
  swept tmp (Path.key (cwd w) tmp) (after o) rc (disk w') ∧
  ((status o ≠ 0 ∧
    log w' = log w ++ EvMkdtemp tmp :: plan ++ [EvExec argv (disk ws); EvCleanup tmp] ∧
    r = inl (RuntimeError
               ("WireViz failed: " +:+
                  Py.CalledProcessError_str h (mkProcessError (status o) argv None None))
               (Some (mkProcessError (status o) argv None None)))) ∨
   (status o = 0 ∧
    log w' = log w ++ EvMkdtemp tmp
               :: plan ++ [EvExec argv (disk ws); EvOpenRead out_file; EvCleanup tmp] ∧
    (r = inl (OSError "open" out_file) ∨
     ∃ b, r = inr b ∧ Fs.read (cwd w) out_file (after o) = Some b))).

(** * Properties *)

(** A run that logged nothing: the claim about its events holds for want
    of events. *)
Ltac nothing_logged :=
  exists []; split;
  [ by rewrite app_nil_r
  | intros; match goal with H : In _ [] |- _ => destruct H end ].

Section Negotiator.
Import Core.

Lemma find_mimetype_None tbl m :
  ¬ In m (map fst tbl) → find_mimetype tbl m = None.
Proof.
  induction tbl as [|[m' [k t]] rest IH]; simpl; [done|].
  intros Hn. destruct (String.eqb_spec m m') as [->|_].
  - exfalso. apply Hn. by left.
  - apply IH. intros Hin. apply Hn. by right.
Qed.

Lemma find_type_None tbl t :
  ¬ In t (map (λ r, snd (snd r)) tbl) → find_type tbl t = None.
Proof.
  induction tbl as [|[m [k t']] rest IH]; simpl; [done|].
  intros Hn. destruct (String.eqb_spec t t') as [->|_].
  - exfalso. apply Hn. by left.
  - apply IH. intros Hin. apply Hn. by right.
Qed.

Lemma mimetype_to_type_unknown m :
  ¬ In m supported_mimetypes → mimetype_to_type m = inl (UnsupportedFormat m).
Proof. intros Hn. unfold mimetype_to_type. by rewrite find_mimetype_None. Qed.

Lemma type_to_mimetype_unknown t :
  ¬ In t supported_types → type_to_mimetype t = inl (UnsupportedFormat t).
Proof. intros Hn. unfold type_to_mimetype. by rewrite find_type_None. Qed.

(** A supported token goes to its MIME type and comes back. *)
Lemma type_mimetype_roundtrip t :
  In t supported_types →
  rbind (type_to_mimetype t) mimetype_to_type = inr t.
Proof.
  unfold supported_types; simpl.
  intros [<-|[<-|[]]]; reflexivity.
Qed.

(** C1: for every supported MIME string [m], [mimetype_to_type m] is a
    supported token and [type_to_mimetype] takes that token back to [m];
    and the other way round for every supported token, so the two maps are
    inverse bijections between the two supported sets. *)
Theorem negotiator_roundtrip :
  (∀ m, In m supported_mimetypes →
     ∃ t, In t supported_types ∧ mimetype_to_type m = inr t ∧
          rbind (mimetype_to_type m) type_to_mimetype = inr m) ∧
  (∀ t, In t supported_types →
     ∃ m, In m supported_mimetypes ∧ type_to_mimetype t = inr m ∧
          rbind (type_to_mimetype t) mimetype_to_type = inr t).
Proof.
  split.
  - unfold supported_mimetypes; simpl.
    intros m [<-|[<-|[]]]; eexists; (split; [|split; reflexivity]); simpl; auto.
  - intros t Ht. pose proof (type_mimetype_roundtrip t Ht) as Hr.
    unfold supported_types in Ht; simpl in Ht.
    destruct Ht as [<-|[<-|[]]]; eexists; (split; [|split; [reflexivity|exact Hr]]);
      simpl; auto.
Qed.

Lemma negotiator_roundtrip_witness :
  (In "image/png" supported_mimetypes ∧ In "svg" supported_types) ∧
  (∃ t, In t supported_types ∧ mimetype_to_type "image/png" = inr t ∧
        rbind (mimetype_to_type "image/png") type_to_mimetype = inr "image/png") ∧
  (∃ m, In m supported_mimetypes ∧ type_to_mimetype "svg" = inr m ∧
        rbind (type_to_mimetype "svg") mimetype_to_type = inr "svg").
Proof.
  assert (H1 : In "image/png" supported_mimetypes) by (simpl; auto).
  assert (H2 : In "svg" supported_types) by (simpl; auto).
  split; [by split|]. destruct negotiator_roundtrip as [A B].
  split; [exact (A _ H1) | exact (B _ H2)].
Defined.

(** C2: a MIME string outside the supported set makes [mimetype_to_type] fail
    with [UnsupportedFormat], a token outside the supported set makes
    [type_to_mimetype] fail the same way; neither returns a value. *)
Theorem negotiator_rejects_unknown s :
  (¬ In s supported_mimetypes → mimetype_to_type s = inl (UnsupportedFormat s)) ∧
  (¬ In s supported_types → type_to_mimetype s = inl (UnsupportedFormat s)).
Proof.
  split; [apply mimetype_to_type_unknown | apply type_to_mimetype_unknown].
Qed.

Lemma negotiator_rejects_unknown_witness :
  (¬ In "text/html" supported_mimetypes ∧ ¬ In "text/html" supported_types) ∧
  mimetype_to_type "text/html" = inl (UnsupportedFormat "text/html") ∧
  type_to_mimetype "text/html" = inl (UnsupportedFormat "text/html").
Proof.
  assert (H1 : ¬ In "text/html" supported_mimetypes).
  { simpl. intros [H|[H|[]]]; discriminate H. }
  assert (H2 : ¬ In "text/html" supported_types).
  { simpl. intros [H|[H|[]]]; discriminate H. }
  split; [by split|].
  destruct (negotiator_rejects_unknown "text/html") as [A B].
  split; [exact (A H1) | exact (B H2)].
Defined.

End Negotiator.

(** ** Runs of the host calls: what they log and what they leave alone *)

Section Runs.


Lemma emits_ret {A} P (a : A) : emits P (ret a).
Proof.
  intros w r w' [= <- <-]. split; [done|]. exists []. by rewrite app_nil_r.
Qed.

Lemma emits_raise {A} P e : emits P (@raise A e).
Proof.
  intros w r w' [= <- <-]. split; [done|]. exists []. by rewrite app_nil_r.
Qed.

Lemma emits_bind {A B} P (m : M A) (k : A → M B) :
  emits P m → (∀ a, emits P (k a)) → emits P (bind m k).
Proof.
  intros Hm Hk w r w'. unfold bind.
  destruct (m w) as [[e|a] w1] eqn:E.
  - intros [= <- <-]. by apply Hm in E.
  - intros Hrun. apply Hm in E as (Hc & evs & Hl & Hf).
    apply Hk in Hrun as (Hc' & evs' & Hl' & Hf').
    split; [congruence|]. exists (evs ++ evs').
    split; [rewrite Hl', Hl; by rewrite app_assoc | by apply Forall_app].
Qed.

Lemma emits_weaken {A} (P Q : Event → Prop) (m : M A) :
  (∀ ev, P ev → Q ev) → emits P m → emits Q m.
Proof.
  intros HPQ Hm w r w' Hrun. apply Hm in Hrun as (Hc & evs & Hl & Hf).
  split; [done|]. exists evs. split; [done|]. eapply Forall_impl; eauto.
Qed.

Lemma emits_logged {A} P ev (m : M A) :
  P ev → emits (λ _, False) m → emits P (logged ev m).
Proof.
  intros Hev Hm w r w' Hrun. unfold logged in Hrun.
  apply Hm in Hrun as (Hc & evs & Hl & Hf). split; [done|].
  destruct evs as [|x evs]; [|by inversion Hf].
  exists [ev]. split; [by rewrite app_nil_r in Hl | by constructor].
Qed.

Lemma emits_host_call {A} P call target (f : World → option (A * World)) :
  (∀ w a w', f w = Some (a, w') →
     cwd w' = cwd w ∧ ∃ evs, log w' = log w ++ evs ∧ Forall P evs) →
  emits P (host_call call target f).
Proof.
  intros Hf w r w'. unfold host_call.
  set (w1 := set_faults (tail (faults w)) w).
  assert (Hquiet : ∀ e, (inl e, w1) = (r, w') →
            cwd w' = cwd w ∧ ∃ evs, log w' = log w ++ evs ∧ Forall P evs).
  { intros e [= <- <-]. split; [done|]. exists []. by rewrite app_nil_r. }
  assert (Hgo : match f w1 with
                | Some (a, w2) => (inr a, w2)
                | None => (inl (OSError call target), w1)
                end = (r, w') →
            cwd w' = cwd w ∧ ∃ evs, log w' = log w ++ evs ∧ Forall P evs).
  { destruct (f w1) as [[a w2]|] eqn:E; [|apply Hquiet].
    intros [= <- <-]. by apply Hf in E. }
  destruct (faults w) as [|[] ?]; simpl; eauto.
Qed.

Lemma emits_try_except {A} P (m : M A) handler :
  emits P m → (∀ e, emits P (handler e)) → emits P (try_except m handler).
Proof.
  intros Hm Hh w r w'. unfold try_except.
  destruct (m w) as [[e|a] w1] eqn:E.
  - destruct e; try (intros [= <- <-]; by apply Hm in E).
    intros Hrun. apply Hm in E as (Hc & evs & Hl & Hf).
    apply Hh in Hrun as (Hc' & evs' & Hl' & Hf').
    split; [congruence|]. exists (evs ++ evs').
    split; [rewrite Hl', Hl; by rewrite app_assoc | by apply Forall_app].
  - intros [= <- <-]. by apply Hm in E.
Qed.

Lemma emits_for_each {A} P (xs : list A) body :
  (∀ x, emits P (body x)) → emits P (for_each xs body).
Proof.
  intros Hb. induction xs as [|x xs IH]; simpl.
  - apply emits_ret.
  - apply emits_bind; auto.
Qed.

(** A disk operation wrapped as a host call logs nothing by itself. *)
Lemma emits_disk_call {A} call target
    (g : World → option Disk) (res : World → Disk → A * World) :
  (∀ w d, cwd (res w d).2 = cwd w ∧ log (res w d).2 = log w) →
  emits (λ _, False) (host_call call target (λ w, d ← g w; Some (res w d))).
Proof.
  intros Hres. apply emits_host_call. intros w a w' Hf.
  destruct (g w) as [d|] eqn:E; simpl in Hf; [|done].
  injection Hf as Hf. destruct (Hres w d) as [Hc Hl]. rewrite Hf in Hc, Hl.
  simpl in *. split; [done|]. exists []. by rewrite app_nil_r.
Qed.

Lemma emits_open_write p data : emits (eq (EvOpenWrite p)) (open_write p data).
Proof.
  apply emits_logged; [done|].
  by apply (emits_disk_call _ _ (λ w, Fs.write (cwd w) p data (disk w))
              (λ w d, (tt, set_disk d w))).
Qed.

Lemma emits_save data dst : emits (eq (EvSave dst)) (save data dst).
Proof.
  apply emits_logged; [done|]. destruct (Path.has_nul dst); [apply emits_raise|].
  by apply (emits_disk_call _ _ (λ w, Fs.write (cwd w) dst data (disk w))
              (λ w d, (tt, set_disk d w))).
Qed.

Lemma emits_makedirs p : emits (eq (EvMakedirs p)) (makedirs p).
Proof.
  apply emits_logged; [done|].
  by apply (emits_disk_call _ _ (λ w, Fs.makedirs (cwd w) p (disk w))
              (λ w d, (tt, set_disk d w))).
Qed.

Lemma emits_open_read p : emits (eq (EvOpenRead p)) (open_read p).
Proof.
  apply emits_logged; [done|].
  apply emits_host_call. intros w a w' Hf.
  destruct (Fs.read (cwd w) p (disk w)) as [b|] eqn:E; simpl in Hf; [|done].
  injection Hf as _ <-. split; [done|]. exists []. by rewrite app_nil_r.
Qed.

Lemma emits_check_call h argv :
  emits (λ ev, ∃ seen, ev = EvExec argv seen) (Py.check_call h argv).
Proof.
  unfold Py.check_call. apply emits_bind.
  - apply emits_host_call. intros w a w' [= <- <-]. split; [done|].
    exists [EvExec argv (disk w)]. split; [done|]. constructor; eauto.
  - intros rc. destruct (rc =? 0); [apply emits_ret | apply emits_raise].
Qed.

End Runs.

(** ** Runs of the handler *)

Section Handler.
Import RenderRegular.


Lemma emits_stage yaml imgs tmp : emits (stage_event tmp) (stage yaml imgs tmp).
Proof.
  unfold stage. apply emits_bind.
  { eapply emits_weaken; [|apply emits_open_write]. intros ? <-. constructor. }
  intros _. destruct imgs as [|img imgs]; [apply emits_ret|].
  apply emits_bind.
  - eapply emits_weaken; [|apply emits_makedirs]. intros ? <-. constructor.
  - intros _. apply emits_for_each. intros x.
    eapply emits_weaken; [|apply emits_save]. intros ? <-. constructor.
Qed.

Lemma emits_invoke h src tmp fmt :
  emits (λ ev, ∃ seen, ev = EvExec (command src tmp fmt) seen) (invoke h src tmp fmt).
Proof.
  apply emits_try_except; [apply emits_check_call | intros e; apply emits_raise].
Qed.

Lemma emits_render h yaml imgs fmt tmp :
  emits (render_event tmp fmt) (render h yaml imgs fmt tmp).
Proof.
  unfold render. apply emits_bind.
  { eapply emits_weaken; [|apply emits_stage]. intros ? []; constructor. }
  intros _. apply emits_bind.
  { eapply emits_weaken; [|apply emits_invoke]. intros ? [seen ->]. constructor. }
  intros _. eapply emits_weaken; [|apply emits_open_read]. intros ? <-. constructor.
Qed.

Lemma mkdtemp_from_inv w cs name w1 :
  mkdtemp_from w cs = Some (name, w1) →
  ∃ sfx k, name = Path.join (tempdir w) ("tmp" +:+ sfx) ∧
    Path.entry (disk w) (cwd w) name = Some k ∧
    (k ∉ dirs (disk w)) ∧ files (disk w) !! k = None ∧
    disk w1 = mkDisk (files (disk w)) ({[k]} ∪ dirs (disk w)) ∧
    cwd w1 = cwd w ∧ log w1 = log w ∧ faults w1 = faults w ∧ tempdir w1 = tempdir w.
Proof.
  induction cs as [|sfx rest IH]; cbn [mkdtemp_from]; [done|].
  destruct (Path.entry (disk w) (cwd w) (Path.join (tempdir w) ("tmp" +:+ sfx)))
    as [k|] eqn:E; [|done].
  destruct (decide (k ∈ dirs (disk w))) as [|Hk]; [exact IH|].
  destruct (files (disk w) !! k) eqn:F; [exact IH|].
  intros [= <- <-]. exists sfx, k. by repeat split.
Qed.

(** What [mkdtemp] leaves: on failure nothing is logged; on success the
    new directory is logged, exists, and was not there before. *)
Lemma mkdtemp_inv w r w1 :
  mkdtemp w = (r, w1) →
  cwd w1 = cwd w ∧
  ((∃ e, r = inl e ∧ log w1 = log w ∧ disk w1 = disk w) ∨
   (∃ name sfx k, r = inr name ∧ log w1 = log w ++ [EvMkdtemp name] ∧
      name = Path.join (tempdir w) ("tmp" +:+ sfx) ∧
      Path.entry (disk w) (cwd w) name = Some k ∧
      (k ∉ dirs (disk w)) ∧ files (disk w) !! k = None ∧
      disk w1 = mkDisk (files (disk w)) ({[k]} ∪ dirs (disk w)) ∧
      faults w1 = tail (faults w))).
Proof.
  unfold mkdtemp, host_call.
  set (w0 := set_faults (tail (faults w)) w).
  assert (Hgo : match
             match mkdtemp_from w0 (supply w0) with
             | Some (a, w2) => (inr a, w2)
             | None => (inl (OSError "mkdtemp" (tempdir w)), w0)
             end
           with
           | (inr name, w') => (inr name, emit (EvMkdtemp name) w')
           | (inl e, w') => (inl e, w')
           end = (r, w1) → cwd w1 = cwd w ∧
    ((∃ e, r = inl e ∧ log w1 = log w ∧ disk w1 = disk w) ∨
     (∃ name sfx k, r = inr name ∧ log w1 = log w ++ [EvMkdtemp name] ∧
      name = Path.join (tempdir w) ("tmp" +:+ sfx) ∧
      Path.entry (disk w) (cwd w) name = Some k ∧
      (k ∉ dirs (disk w)) ∧ files (disk w) !! k = None ∧
      disk w1 = mkDisk (files (disk w)) ({[k]} ∪ dirs (disk w)) ∧
      faults w1 = tail (faults w)))).
  { destruct (mkdtemp_from w0 (supply w0)) as [[name w2]|] eqn:E.
    - intros [= <- <-].
      apply mkdtemp_from_inv in E
        as (sfx & k & Hn & He & Hk & Hf & Hd & Hc & Hl & Hfa & _).
      split; [done|]. right. exists name, sfx, k. simpl.
      rewrite Hl, Hd, Hfa. by repeat split.
    - intros [= <- <-]. split; [done|]. left. eauto. }
  destruct (faults w) as [|[] ?]; simpl; [exact Hgo| |exact Hgo].
  intros [= <- <-]. split; [done|]. left. eauto.
Qed.



(** The cleanup logs itself, prints nothing, and either removes the tree
    or fails and leaves the disk. *)
Lemma cleanup_inv tmp w rc w' :
  cleanup tmp w = (rc, w') →
  log w' = log w ++ [EvCleanup tmp] ∧ cwd w' = cwd w ∧ console w' = console w ∧
  swept tmp (Path.key (cwd w) tmp) (disk w) rc (disk w').
Proof.
  unfold cleanup, logged, host_call, swept, Fs.rmtree_at. simpl.
  destruct (Path.meets_file _ _ _ _); destruct (faults w) as [|[] rest]; simpl;
    intros [= <- <-]; repeat split; auto.
Qed.

Lemma post_inv h req w r w' : post h req w = (r, w') → post_run h req w r w'.
Proof.
  unfold post, parse_args, bind, lift, ret, raise, with_TemporaryDirectory.
  destruct (yml_file req) as [f|] eqn:Ey.
  2:{ intros [= <- <-]. constructor. by left. }
  destruct (Core.mimetype_to_type _) as [e|fmt] eqn:Em; simpl.
  { intros [= <- <-]. constructor. right. exists f. by rewrite Em. }
  destruct (PurePath.with_suffix _ _) as [e|p] eqn:Es; simpl.
  { intros [= <- <-]. constructor. right. exists f. by rewrite Em. }
  destruct (mkdtemp w) as [[e|tmp] w1] eqn:Et.
  { intros [= <- <-]. by econstructor. }
  destruct (render h (stream f) (images req) fmt tmp w1) as [rr w2] eqn:Er.
  destruct (cleanup tmp w2) as [rc w3] eqn:Ec.
  pose proof (run_rendered h req w f fmt p tmp w1 rr w2 rc w3 Ey Em Es Et Er Ec) as Hrun.
  destruct rc as [e|[]]; [|destruct rr as [e|payload]]; by intros [= <- <-].
Qed.

End Handler.

(** ** Path strings *)

Section Paths.

Lemma append_nil (b : string) : "" +:+ b = b.
Proof. reflexivity. Qed.

Lemma append_cons x (a b : string) : String x a +:+ b = String x (a +:+ b).
Proof. reflexivity. Qed.

Lemma split_nonempty sep s : Str.split sep s ≠ [].
Proof.
  destruct s as [|c s]; simpl; [done|].
  destruct (Ascii.eqb c sep); [done|]. by destruct (Str.split sep s).
Qed.

Lemma split_plain sep s : Str.has_char sep s = false → Str.split sep s = [s].
Proof.
  induction s as [|c s IH]; simpl; [done|].
  intros H. apply orb_false_iff in H as [Hc Hs]. rewrite Hc, (IH Hs). done.
Qed.

Lemma split_app sep a b :
  Str.split sep (a +:+ String sep b) = Str.split sep a ++ Str.split sep b.
Proof.
  induction a as [|c a IH]; rewrite ?append_nil, ?append_cons; simpl.
  - by rewrite Ascii.eqb_refl.
  - destruct (Ascii.eqb c sep); [by rewrite IH|]. rewrite IH.
    pose proof (split_nonempty sep a). by destruct (Str.split sep a).
Qed.

Lemma endswith_char_inv c a :
  Str.endswith_char c a = true → ∃ a', a = a' +:+ String c "".
Proof.
  induction a as [|x a IH]; simpl; [done|].
  destruct a as [|y a].
  - intros H. apply Ascii.eqb_eq in H as ->. by exists "".
  - intros H. destruct (IH H) as [a' Ha']. exists (String x a').
    by rewrite append_cons, <- Ha'.
Qed.

Lemma append_assoc (a b c : string) : (a +:+ b) +:+ c = a +:+ b +:+ c.
Proof.
  induction a as [|x a IH]; rewrite ?append_nil, ?append_cons; [done | by rewrite IH].
Qed.

Lemma startswith_append c a b :
  a ≠ "" → Str.startswith (String c "") (a +:+ b) = Str.startswith (String c "") a.
Proof. by destruct a. Qed.

Lemma has_char_startswith c b :
  Str.has_char c b = false → Str.startswith (String c "") b = false.
Proof.
  destruct b as [|x b]; simpl; [done|]. intros H.
  apply orb_false_iff in H as [H _]. rewrite Ascii.eqb_sym, H. done.
Qed.

(** A path joined with a name that has no slash: the name is the last
    component, and before it come the components of the path, up to empty
    ones. *)
Lemma components_join a b :
  Str.has_char "/" b = false →
  ∃ pre, Path.components (Path.join a b) = pre ++ [b] ∧
         List.filter nonempty pre = List.filter nonempty (Path.components a) ∧
         Path.is_absolute (Path.join a b) = Path.is_absolute a.
Proof.
  intros Hb. unfold Path.join, Path.components, Path.is_absolute.
  rewrite (has_char_startswith _ _ Hb).
  destruct (String.eqb_spec a "") as [->|Ha]; simpl "||".
  { exists []. cbv iota. rewrite append_nil, (split_plain _ _ Hb). split; [done|].
    split; [done|]. by apply has_char_startswith. }
  destruct (Str.endswith_char "/" a) eqn:He.
  - apply endswith_char_inv in He as [a' ->].
    exists (Str.split "/" a'). rewrite append_assoc, append_cons, append_nil.
    rewrite split_app, (split_plain _ _ Hb). split; [done|]. split.
    + rewrite (split_app "/" a' ""), List.filter_app. simpl. by rewrite app_nil_r.
    + destruct a'; [|done]. rewrite !append_nil. simpl. by destruct b.
  - exists (Str.split "/" a).
    rewrite append_cons, append_nil, split_app, (split_plain _ _ Hb).
    split; [done|]. split; [done|]. by apply startswith_append.
Qed.

Lemma fold_step_filter l cur :
  fold_left Path.step l cur = fold_left Path.step (List.filter nonempty l) cur.
Proof.
  revert cur. induction l as [|c l IH]; intros cur; simpl; [done|].
  unfold nonempty at 1. destruct (String.eqb_spec c "") as [->|Hc]; simpl; by rewrite IH.
Qed.

Lemma walk_filter ds l cur :
  Path.walk ds cur l = Path.walk ds cur (List.filter nonempty l).
Proof.
  revert cur. induction l as [|c l IH]; intros cur; simpl; [done|].
  unfold nonempty at 1. destruct (String.eqb_spec c "") as [->|Hc]; simpl; [done|].
  apply String.eqb_neq in Hc. rewrite Hc. simpl.
  destruct (String.eqb c "."); [done|]. destruct (String.eqb c ".."); [done|].
  by destruct (decide _).
Qed.

Lemma step_leaf cur c : Path.is_leaf c = true → Path.step cur c = cur ++ [c].
Proof.
  unfold Path.is_leaf, Path.step. intros H. apply negb_true_iff in H.
  apply orb_false_iff in H as [H H2]. rewrite H, H2. done.
Qed.

(** Where a walk through existing directories arrives is where the path
    string points. *)
Lemma walk_key ds l cur k :
  Path.walk ds cur l = Some k → fold_left Path.step l cur = k.
Proof.
  revert cur. induction l as [|c l IH]; intros cur; simpl; [by intros [= ->]|].
  unfold Path.step at 2.
  destruct (String.eqb c "" || String.eqb c "."); [apply IH|].
  destruct (String.eqb c ".."); [apply IH|].
  destruct (decide _); [apply IH | done].
Qed.

Lemma walk_app ds l1 l2 cur :
  Path.walk ds cur (l1 ++ l2) = Path.walk ds cur l1 ≫= λ k, Path.walk ds k l2.
Proof.
  revert cur. induction l1 as [|c l1 IH]; intros cur; simpl; [done|].
  destruct (String.eqb c "" || String.eqb c "."); [apply IH|].
  destruct (String.eqb c ".."); [apply IH|].
  destruct (decide _); [apply IH | done].
Qed.

Lemma walk_mono ds ds' l cur k :
  ds ⊆ ds' → Path.walk ds cur l = Some k → Path.walk ds' cur l = Some k.
Proof.
  intros Hsub. revert cur. induction l as [|c l IH]; intros cur; simpl; [done|].
  destruct (String.eqb c "" || String.eqb c "."); [apply IH|].
  destruct (String.eqb c ".."); [apply IH|].
  destruct (decide (cur ++ [c] ∈ ds)) as [Hin|]; [|done].
  destruct (decide (cur ++ [c] ∈ ds')) as [|Hn]; [apply IH|].
  exfalso. apply Hn. by apply Hsub.
Qed.

Lemma key_join cwd a b :
  Str.has_char "/" b = false → Path.is_leaf b = true →
  Path.key cwd (Path.join a b) = Path.key cwd a ++ [b].
Proof.
  intros Hb Hl. destruct (components_join a b Hb) as (pre & Hc & Hf & Ha).
  unfold Path.key. rewrite Hc, Ha, fold_left_app. simpl.
  rewrite (fold_step_filter pre), Hf, <- fold_step_filter. by apply step_leaf.
Qed.

(** Once an entry has become a directory, its path string names it. *)
Lemma entry_directory d d' cwd p k :
  Path.entry d cwd p = Some k → dirs d ⊆ dirs d' → k ∈ dirs d' →
  directory d' cwd p = Some k.
Proof.
  unfold Path.entry, directory. intros He Hsub Hk.
  destruct (Path.fits p); simpl in He; [|done].
  destruct (Path.is_leaf (List.last (Path.components p) "")) eqn:Hl; [|done].
  destruct (Path.walk (dirs d) _ _) as [parent|] eqn:Hw; [|done].
  injection He as <-.
  pose proof (app_removelast_last "" (split_nonempty "/" p)) as Hc.
  fold (Path.components p) in Hc.
  set (c := List.last (Path.components p) "") in *.
  rewrite Hc, walk_app, (walk_mono _ _ _ _ _ Hsub Hw). simpl.
  unfold Path.is_leaf in Hl. apply negb_true_iff in Hl.
  apply orb_false_iff in Hl as [Hl H2]. rewrite Hl, H2.
  by destruct (decide _).
Qed.

(** The staged description is always called [input.yml], whatever the
    temporary directory, and its stem is [input]. *)
Lemma staged_stem tmp :
  PurePath.stem (PurePath.parse (Path.join tmp "input.yml")) = "input".
Proof.
  destruct (components_join tmp "input.yml" eq_refl) as (pre & Hc & _).
  unfold PurePath.stem, PurePath.name, PurePath.parse. simpl PurePath.parts.
  unfold Path.components in Hc. rewrite Hc, List.filter_app. simpl.
  by rewrite last_last.
Qed.

End Paths.

(** ** The claims about [POST /render] *)

Section Render.
Import RenderRegular.

Lemma length_append (a b : string) :
  String.length (a +:+ b) = (String.length a + String.length b)%nat.
Proof. induction a as [|c a IH]; simpl; [done | by rewrite IH]. Qed.

Lemma join_length a b : (String.length b ≤ String.length (Path.join a b))%nat.
Proof.
  unfold Path.join. destruct (Str.startswith "/" b); [done|].
  destruct (_ || _); rewrite !length_append; lia.
Qed.

(** What a run of the handler logs.  Either nothing, or the creation of one
    temporary directory, the host calls of the block and the cleanup, whose
    failure, if it fails, is the result. *)
Lemma post_events h req w r w' :
  post h req w = (r, w') →
  cwd w' = cwd w ∧
  (log w' = log w ∨
   ∃ f fmt tmp sfx evs w2 rc,
     yml_file req = Some f ∧
     Core.mimetype_to_type (Py.or_else (accept req) "image/svg+xml") = inr fmt ∧
     tmp = Path.join (tempdir w) ("tmp" +:+ sfx) ∧
     log w' = log w ++ EvMkdtemp tmp :: evs ++ [EvCleanup tmp] ∧
     Forall (render_event tmp fmt) evs ∧
     swept tmp (Path.key (cwd w) tmp) (disk w2) rc (disk w') ∧
     (∀ e, rc = inl e → r = inl e)).
Proof.
  intros Hrun. apply post_inv in Hrun.
  destruct Hrun as [e _|f fmt p e w1 Hy Hm Hs Ht
                    |f fmt p tmp w1 rr w2 rc w3 Hy Hm Hs Ht Hr Hcl].
  - split; [done | by left].
  - apply mkdtemp_inv in Ht as [Hc [(e' & _ & Hl & _)|(n & ? & ? & [=] & _)]].
    split; [done | by left].
  - apply mkdtemp_inv in Ht
      as [Hc [(e' & [=] & _)|(n & sfx & k & [= <-] & Hl & Hn & _)]].
    apply emits_render in Hr as (Hc2 & evs & Hl2 & Hf).
    apply cleanup_inv in Hcl as (Hl3 & Hc3 & _ & Hsw).
    split; [congruence|]. right.
    exists f, fmt, tmp, sfx, evs, w2, rc. repeat split; try done.
    + rewrite Hl3, Hl2, Hl, <- !app_assoc. reflexivity.
    + by rewrite <- Hc, <- Hc2.
    + by intros e ->.
Qed.




(** The temporary directory and the staged input are never the two
    characters of the format flag. *)
Lemma tmp_not_flag td sfx : Path.join td ("tmp" +:+ sfx) ≠ "-f".
Proof.
  intros H. pose proof (join_length td ("tmp" +:+ sfx)) as Hlen.
  rewrite H in Hlen. simpl in Hlen. lia.
Qed.

Lemma src_not_flag tmp : Path.join tmp "input.yml" ≠ "-f".
Proof.
  intros H. pose proof (join_length tmp "input.yml") as Hlen.
  rewrite H in Hlen. simpl in Hlen. lia.
Qed.

Lemma command_flag td sfx fmt :
  let tmp := Path.join td ("tmp" +:+ sfx) in
  In "-f" (command (Path.join tmp "input.yml") tmp fmt) ↔ fmt ≠ "svg".
Proof.
  intros tmp. unfold command.
  destruct (String.eqb_spec fmt "svg") as [->|Hne]; simpl.
  - split; [|done]. intros [H|[H|[H|[H|[]]]]]; try discriminate H.
    + by apply src_not_flag in H.
    + by apply tmp_not_flag in H.
  - split; [done|]. intros _. do 4 right. by left.
Qed.

(** C8: every argument list the handler passes to the engine holds the
    format flag [-f] exactly when the negotiated token is not ["svg"], and
    then ends with [-f] and the token. *)
Theorem format_flag_iff_not_default h req w r w' :
  post h req w = (r, w') →
  ∃ evs, log w' = log w ++ evs ∧
    ∀ argv seen, In (EvExec argv seen) evs →
      ∃ fmt,
        Core.mimetype_to_type (Py.or_else (accept req) "image/svg+xml") = inr fmt ∧
        (In "-f" argv ↔ fmt ≠ "svg") ∧
        (fmt ≠ "svg" → ∃ front, argv = front ++ ["-f"; fmt]).
Proof.
  intros Hrun. apply post_events in Hrun as [Hc [Hl|Hev]].
  - nothing_logged.
  - destruct Hev as (f & fmt & tmp & sfx & evs & w2 & rc & _ & Hm & Htmp & Hl & Hf & _).
    eexists. split; [exact Hl|]. intros argv seen [Hin|Hin]; [done|].
    apply in_app_or in Hin as [Hin|[Hin|[]]]; [|done].
    rewrite Forall_forall in Hf. apply list_elem_of_In, Hf in Hin.
    inversion Hin as [| | |seen' Heq|]; subst argv seen'.
    exists fmt. split; [done|]. split.
    + rewrite Htmp. apply command_flag.
    + intros Hne. unfold command. apply String.eqb_neq in Hne. rewrite Hne. eauto.
Qed.

Lemma format_flag_iff_not_default_witness :
  let run := post Demo.host_ok (Demo.request (Some "image/png") []) Demo.world in
  In (EvExec Demo.argv_png Demo.staged) (log run.2) ∧
  ∃ evs, log run.2 = log Demo.world ++ evs ∧
    ∀ argv seen, In (EvExec argv seen) evs →
      ∃ fmt,
        Core.mimetype_to_type (Py.or_else (Some "image/png") "image/svg+xml") = inr fmt ∧
        (In "-f" argv ↔ fmt ≠ "svg") ∧
        (fmt ≠ "svg" → ∃ front, argv = front ++ ["-f"; fmt]).
Proof.
  intros run. split; [vm_compute; auto 10|].
  apply (format_flag_iff_not_default Demo.host_ok
           (Demo.request (Some "image/png") []) Demo.world run.1).
  apply surjective_pairing.
Defined.

Lemma substring_length n m s :
  (n + m ≤ String.length s)%nat → String.length (String.substring n m s) = m.
Proof.
  revert n m. induction s as [|c s IH]; intros [|n] [|m]; simpl; try lia.
  - intros H. f_equal. apply IH. lia.
  - intros H. apply IH. lia.
  - intros H. apply IH. lia.
Qed.

(** The name [with_suffix] gives is the stem followed by the new suffix. *)
Lemma with_suffix_name p sfx p' :
  PurePath.with_suffix p sfx = inr p' →
  PurePath.name p' = PurePath.stem p +:+ sfx.
Proof.
  unfold PurePath.with_suffix.
  destruct (Str.has_char "/" sfx); [done|].
  destruct (_ || _); [done|].
  destruct (String.eqb (PurePath.name p) ""); [done|].
  intros [= <-]. unfold PurePath.name at 1. simpl. rewrite last_last.
  unfold PurePath.suffix, PurePath.stem.
  destruct (PurePath.has_suffix (PurePath.name p)) eqn:Hs; [|done].
  set (n := PurePath.name p) in *.
  unfold PurePath.has_suffix in Hs. apply andb_true_iff in Hs as [H0 H1].
  apply Z.ltb_lt in H0, H1. unfold PurePath.strlen in *.
  assert (Hlen : String.length (PurePath.slice n (PurePath.rfind "." n)
                   (Z.of_nat (String.length n)))
                 = Z.to_nat (Z.of_nat (String.length n) - PurePath.rfind "." n)).
  { unfold PurePath.slice. apply substring_length. lia. }
  destruct (String.eqb_spec
    (PurePath.slice n (PurePath.rfind "." n) (Z.of_nat (String.length n))) "")
    as [He|_].
  { rewrite He in Hlen. simpl in Hlen. lia. }
  rewrite Hlen. do 2 f_equal. lia.
Qed.

(** C9: a successful response carries
    [Content-Disposition: attachment; filename=<base>.<fmt>], where [<base>]
    is the stem of the final component of the uploaded file's name and
    [<fmt>] the negotiated token. *)
Theorem content_disposition_filename h req w resp w' :
  post h req w = (inr resp, w') →
  ∃ f fmt,
    yml_file req = Some f ∧
    Core.mimetype_to_type (Py.or_else (accept req) "image/svg+xml") = inr fmt ∧
    headers resp =
      [("Content-Disposition",
        "attachment; filename=" +:+
          PurePath.stem (PurePath.parse (filename f)) +:+ "." +:+ fmt)].
Proof.
  intros Hrun. apply post_inv in Hrun.
  inversion Hrun as [|
                     |f fmt p tmp w1 rr w2 rc w3 Hy Hm Hs Ht Hr Hcl Hres Hw].
  destruct rc as [e|[]]; [done|]. destruct rr as [e|payload]; [done|].
  injection Hres as <-.
  exists f, fmt. repeat split; try done. simpl.
  by rewrite (with_suffix_name _ _ _ Hs).
Qed.

Lemma content_disposition_filename_witness :
  let run := post Demo.host_ok (Demo.request (Some "image/png") []) Demo.world in
  ∃ f fmt,
    yml_file (Demo.request (Some "image/png") []) = Some f ∧
    Core.mimetype_to_type (Py.or_else (Some "image/png") "image/svg+xml") = inr fmt ∧
    [("Content-Disposition", "attachment; filename=demo01.png")] =
      [("Content-Disposition",
        "attachment; filename=" +:+
          PurePath.stem (PurePath.parse (filename f)) +:+ "." +:+ fmt)].
Proof.
  intros run.
  apply (content_disposition_filename Demo.host_ok
           (Demo.request (Some "image/png") []) Demo.world
           (mkResponse (Demo.data "PNG") "image/png"
              [("Content-Disposition", "attachment; filename=demo01.png")]) run.2).
  vm_compute. reflexivity.
Defined.

(** C3, as the handler has it: an absent or empty [Accept] header is
    replaced by ["image/svg+xml"], which selects ["svg"]; any other value
    goes to the negotiator as it is, and one outside the supported set makes
    the request fail with [UnsupportedFormat] before anything is staged. *)
Theorem accept_defaults_only_when_absent h req f :
  yml_file req = Some f →
  (accept req = None ∨ accept req = Some "" →
     Core.mimetype_to_type (Py.or_else (accept req) "image/svg+xml") = inr "svg" ∧
     ∀ w, post h req w
          = post h (mkRequest (Some "image/svg+xml") (yml_file req) (images req)) w) ∧
  (∀ m, accept req = Some m → m ≠ "" → ¬ In m Core.supported_mimetypes →
     ∀ w, post h req w = (inl (UnsupportedFormat m), w)).
Proof.
  intros Hy. split.
  - intros Ha. assert (Hm : Py.or_else (accept req) "image/svg+xml" = "image/svg+xml").
    { by destruct Ha as [-> | ->]. }
    split; [by rewrite Hm|]. intros w. unfold post. simpl. by rewrite Hm.
  - intros m Ha Hne Hn w. unfold post, parse_args, bind, lift. rewrite Hy, Ha. simpl.
    apply String.eqb_neq in Hne. rewrite Hne.
    by rewrite (mimetype_to_type_unknown m Hn).
Qed.

Lemma accept_defaults_only_when_absent_witness :
  (Core.mimetype_to_type (Py.or_else None "image/svg+xml") = inr "svg" ∧
   ∀ w, post Demo.host_ok (Demo.request None []) w
        = post Demo.host_ok (mkRequest (Some "image/svg+xml") (Some Demo.harness) []) w) ∧
  (∀ w, post Demo.host_ok (Demo.request (Some "*/*") []) w
        = (inl (UnsupportedFormat "*/*"), w)).
Proof.
  destruct (accept_defaults_only_when_absent Demo.host_ok
              (Demo.request None []) Demo.harness eq_refl) as [A _].
  destruct (accept_defaults_only_when_absent Demo.host_ok
              (Demo.request (Some "*/*") []) Demo.harness eq_refl) as [_ B].
  split; [apply A; by left|].
  apply (B "*/*"); [done|done|].
  simpl. intros [H|[H|[]]]; discriminate H.
Defined.

(** C3 as stated fails: with [Accept: text/html], a value outside the
    supported set, the request is refused and no format is selected. *)
Lemma unrecognized_accept_is_refused :
  ¬ In "text/html" Core.supported_mimetypes ∧
  post Demo.host_ok (Demo.request (Some "text/html") []) Demo.world
  = (inl (UnsupportedFormat "text/html"), Demo.world).
Proof.
  split; [|reflexivity]. simpl. intros [H|[H|[]]]; discriminate H.
Qed.

Lemma render_inv h yaml imgs fmt tmp w r w' :
  render h yaml imgs fmt tmp w = (r, w') →
  ∃ rs ws, stage yaml imgs tmp w = (rs, ws) ∧
    match rs with
    | inl e => r = inl e ∧ w' = ws
    | inr _ =>
        ∃ ri wi, invoke h (Path.join tmp "input.yml") tmp fmt ws = (ri, wi) ∧
          match ri with
          | inl e => r = inl e ∧ w' = wi
          | inr _ => collect (Path.join tmp "input.yml") tmp fmt wi = (r, w')
          end
    end.
Proof.
  unfold render, bind.
  destruct (stage yaml imgs tmp w) as [[e|[]] ws]; intros Hrun.
  - injection Hrun as <- <-. by exists (inl e), ws.
  - exists (inr tt), ws. split; [done|].
    destruct (invoke h (Path.join tmp "input.yml") tmp fmt ws) as [[e|[]] wi].
    + injection Hrun as <- <-. by exists (inl e), wi.
    + by exists (inr tt), wi.
Qed.

Lemma with_suffix_error p sfx e :
  PurePath.with_suffix p sfx = inl e → ∃ msg, e = ValueError msg.
Proof.
  unfold PurePath.with_suffix.
  destruct (Str.has_char "/" sfx); [intros [= <-]; by eexists|].
  destruct (_ || _); [intros [= <-]; by eexists|].
  destruct (String.eqb _ ""); [intros [= <-]; by eexists | done].
Qed.

End Render.

(** ** Uploads and their names *)

Section Staging.
Import RenderRegular.

Lemma mkdirs_app (fs : gmap path bytes) ds l1 l2 cur :
  Fs.mkdirs fs ds cur (l1 ++ l2)
  = Fs.mkdirs fs ds cur l1 ≫= λ ds', Fs.mkdirs fs ds' (fold_left Path.step l1 cur) l2.
Proof.
  revert ds cur. induction l1 as [|c l1 IH]; intros ds cur; simpl; [done|].
  unfold Path.step at 2.
  destruct (String.eqb c "" || String.eqb c "."); [apply IH|].
  destruct (String.eqb c ".."); [apply IH|].
  destruct (fs !! (cur ++ [c])); [done | apply IH].
Qed.

Lemma plain_inv n :
  plain n = true → Str.has_char "/" n = false ∧ Path.is_leaf n = true.
Proof.
  unfold plain. intros H. apply andb_true_iff in H as [H1 H2].
  by apply negb_true_iff in H1.
Qed.

(** An upload has a last upload of its name. *)
Lemma latest_in imgs img : In img imgs → is_Some (latest imgs (filename img)).
Proof.
  induction imgs as [|x xs IH]; [done|]. simpl.
  destruct (latest xs (filename img)) eqn:E; [by eexists|].
  intros [->|Hin]; [rewrite String.eqb_refl; by eexists|].
  apply IH in Hin as [b Hb]. congruence.
Qed.

Lemma latest_none imgs n : Forall (λ x, filename x ≠ n) imgs → latest imgs n = None.
Proof.
  induction 1 as [|x xs Hx _ IH]; simpl; [done|].
  rewrite IH. apply String.eqb_neq in Hx. by rewrite Hx.
Qed.

(** [latest] is the upload of that name with no upload of that name after
    it. *)
Lemma latest_spec imgs n b :
  latest imgs n = Some b ↔
  ∃ before img after,
    imgs = before ++ img :: after ∧ filename img = n ∧ stream img = b ∧
    Forall (λ x, filename x ≠ n) after.
Proof.
  revert b. induction imgs as [|x xs IH]; intros b; simpl.
  { split; [done|]. intros (before & ? & ? & H & _). by destruct before. }
  split.
  - destruct (latest xs n) as [b'|] eqn:E.
    + intros [= <-]. destruct (proj1 (IH b') eq_refl) as (bf & img & af & -> & ? & ? & ?).
      by exists (x :: bf), img, af.
    + destruct (String.eqb_spec (filename x) n) as [Hn|]; [|done]. intros [= <-].
      exists [], x, xs. repeat split; try done.
      apply Forall_forall. intros y Hy Hyn. apply list_elem_of_In in Hy.
      rewrite <- Hyn in E. apply latest_in in Hy as [? Hy]. congruence.
  - intros (bf & img & af & Heq & Hn & Hb & Haf). destruct bf as [|y bf].
    + injection Heq as -> ->.
      rewrite (latest_none _ _ Haf). apply String.eqb_eq in Hn. rewrite Hn. by rewrite Hb.
    + injection Heq as -> ->.
      assert (Hs : latest (bf ++ img :: af) n = Some b).
      { apply IH. by exists bf, img, af. }
      by rewrite Hs.
Qed.

Lemma directory_same_dirs d d' cwd p :
  dirs d' = dirs d → directory d' cwd p = directory d cwd p.
Proof. unfold directory. by intros ->. Qed.

(** C7 fails on the code.  Two uploads with the one file name
    [../input.yml]: the handler joins the name to the [resources] directory
    as it is, so both are written over the staged description, outside
    [resources]; the engine is run on the second upload and no file is
    below [resources].  And two file fields left empty, which arrive as two
    uploads with the empty name: the first save aims at the [resources]
    directory itself, staging fails and the engine is never run. *)
Lemma upload_name_climbs_out_of_resources :
  let run := post Demo.host_ok (Demo.request None Demo.climbing) Demo.world in
  let bad := post Demo.host_ok (Demo.request None Demo.unnamed) Demo.world in
  log run.2 =
    [EvMkdtemp Demo.tmp;
     EvOpenWrite "/tmp/tmpk3x9q2ab/input.yml";
     EvMakedirs "/tmp/tmpk3x9q2ab/resources";
     EvSave "/tmp/tmpk3x9q2ab/resources/../input.yml";
     EvSave "/tmp/tmpk3x9q2ab/resources/../input.yml";
     EvExec ["wireviz"; "/tmp/tmpk3x9q2ab/input.yml"; "-o"; "/tmp/tmpk3x9q2ab"]
       (mkDisk {[ ["tmp"; "tmpk3x9q2ab"; "input.yml"] := Demo.data "two" ]}
               {[ ["tmp"]; ["srv"]; ["tmp"; "tmpk3x9q2ab"];
                  ["tmp"; "tmpk3x9q2ab"; "resources"] ]});
     EvOpenRead "/tmp/tmpk3x9q2ab/input.svg";
     EvCleanup Demo.tmp] ∧
  bad.1 = inl (OSError "save" "/tmp/tmpk3x9q2ab/resources/") ∧
  log bad.2 =
    [EvMkdtemp Demo.tmp;
     EvOpenWrite "/tmp/tmpk3x9q2ab/input.yml";
     EvMakedirs "/tmp/tmpk3x9q2ab/resources";
     EvSave "/tmp/tmpk3x9q2ab/resources/";
     EvCleanup Demo.tmp].
Proof. intros run bad. split; [by vm_compute|]. split; by vm_compute. Qed.

End Staging.

(** ** The text decoder *)

Section Decoder.
Import Core.

Lemma index_from_None i c s :
  ¬ In c (list_ascii_of_string s) → index_from i c s = None.
Proof.
  revert i. induction s as [|a s IH]; intros i Hn; simpl; [done|].
  destruct (Ascii.eqb_spec a c) as [->|_].
  - exfalso. apply Hn. by left.
  - apply IH. intros Hin. apply Hn. by right.
Qed.

Lemma index_from_range i c s v :
  index_from i c s = Some v → i ≤ v < i + Z.of_nat (String.length s).
Proof.
  revert i. induction s as [|a s IH]; intros i; simpl; [done|].
  destruct (Ascii.eqb a c).
  - intros [= <-]. lia.
  - intros H. apply IH in H. lia.
Qed.

(** A character stands for six bits. *)
Lemma sextet_range c v : sextet c = Some v → 0 ≤ v < 64.
Proof. intros H. apply index_from_range in H. simpl in H. lia. Qed.

Lemma sextets_outside s c :
  In c (list_ascii_of_string s) → sextet c = None → sextets s = None.
Proof.
  induction s as [|a s IH]; simpl; [done|].
  intros [->|Hin] Hc; [by rewrite Hc|].
  rewrite (IH Hin Hc). by destruct (sextet a).
Qed.

Lemma sextets_range s vs : sextets s = Some vs → Forall (λ v, 0 ≤ v < 64) vs.
Proof.
  revert vs. induction s as [|a s IH]; intros vs; simpl.
  - intros [= <-]. constructor.
  - destruct (sextet a) as [v|] eqn:Ea; [|done].
    destruct (sextets s) as [vs'|]; [|done]. intros [= <-].
    constructor; [by apply (sextet_range a) | by apply IH].
Qed.

Lemma lor_le a b : 0 ≤ a → 0 ≤ b → 0 ≤ Z.lor a b ≤ a + b.
Proof.
  intros Ha Hb. split; [by apply Z.lor_nonneg|].
  pose proof (Z.add_lor_land a b) as H.
  assert (0 ≤ Z.land a b) by (apply Z.land_nonneg; by left). lia.
Qed.

(** The three ways two neighbouring characters make a byte. *)
Lemma byte_ranges a b :
  0 ≤ a < 64 → 0 ≤ b < 64 →
  0 ≤ Z.lor (Z.shiftl a 2) (Z.shiftr b 4) < 256 ∧
  0 ≤ Z.lor (Z.shiftl (Z.land a 15) 4) (Z.shiftr b 2) < 256 ∧
  0 ≤ Z.lor (Z.shiftl (Z.land a 3) 6) b < 256.
Proof.
  intros Ha Hb.
  assert (H15 : 0 ≤ Z.land a 15 < 16).
  { change 15 with (Z.ones 4). rewrite Z.land_ones by lia. by apply Z.mod_pos_bound. }
  assert (H3 : 0 ≤ Z.land a 3 < 4).
  { change 3 with (Z.ones 2). rewrite Z.land_ones by lia. by apply Z.mod_pos_bound. }
  assert (Hb4 : 0 ≤ Z.shiftr b 4 < 4).
  { rewrite Z.shiftr_div_pow2 by lia. change (2 ^ 4) with 16.
    split; [apply Z.div_pos; lia | apply Z.div_lt_upper_bound; lia]. }
  assert (Hb2 : 0 ≤ Z.shiftr b 2 < 16).
  { rewrite Z.shiftr_div_pow2 by lia. change (2 ^ 2) with 4.
    split; [apply Z.div_pos; lia | apply Z.div_lt_upper_bound; lia]. }
  repeat split;
    try (apply Z.lor_nonneg; split; [apply Z.shiftl_nonneg|]; lia).
  - pose proof (lor_le (Z.shiftl a 2) (Z.shiftr b 4)) as H.
    rewrite Z.shiftl_mul_pow2 in * by lia. change (2 ^ 2) with 4 in *. lia.
  - pose proof (lor_le (Z.shiftl (Z.land a 15) 4) (Z.shiftr b 2)) as H.
    rewrite Z.shiftl_mul_pow2 in * by lia. change (2 ^ 4) with 16 in *. lia.
  - pose proof (lor_le (Z.shiftl (Z.land a 3) 6) b) as H.
    rewrite Z.shiftl_mul_pow2 in * by lia. change (2 ^ 6) with 64 in *. lia.
Qed.

(** Step 1 gives bytes. *)
Lemma unpack_bytes vs : ∀ bs,
  Forall (λ v, 0 ≤ v < 64) vs → unpack vs = Some bs → Forall (λ b, 0 ≤ b < 256) bs.
Proof.
  assert (Hind : ∀ n vs, (length vs ≤ n)%nat → ∀ bs,
            Forall (λ v, 0 ≤ v < 64) vs → unpack vs = Some bs →
            Forall (λ b, 0 ≤ b < 256) bs).
  { induction n as [|n IH]; intros ws Hlen bs Hr.
    { destruct ws; [|simpl in Hlen; lia]. intros [= <-]. constructor. }
    destruct ws as [|a [|b [|c [|d rest]]]]; simpl.
    - intros [= <-]. constructor.
    - done.
    - intros [= <-]. apply Forall_cons in Hr as [Ha Hr]. apply Forall_cons in Hr as [Hb _].
      constructor; [apply (byte_ranges a b Ha Hb) | constructor].
    - intros [= <-]. apply Forall_cons in Hr as [Ha Hr]. apply Forall_cons in Hr as [Hb Hr].
      apply Forall_cons in Hr as [Hc _].
      constructor; [apply (byte_ranges a b Ha Hb)|].
      constructor; [apply (byte_ranges b c Hb Hc) | constructor].
    - apply Forall_cons in Hr as [Ha Hr]. apply Forall_cons in Hr as [Hb Hr].
      apply Forall_cons in Hr as [Hc Hr]. apply Forall_cons in Hr as [Hd Hr].
      destruct (unpack rest) as [bs'|] eqn:E; [|done]. intros [= <-].
      constructor; [apply (byte_ranges a b Ha Hb)|].
      constructor; [apply (byte_ranges b c Hb Hc)|].
      constructor; [apply (byte_ranges c d Hc Hd)|].
      apply (IH rest); [simpl in Hlen; lia | done | done]. }
  intros bs. by apply (Hind (length vs)).
Qed.

Lemma realphabetize_bytes s bs :
  realphabetize s = inr bs → Forall (λ b, 0 ≤ b < 256) bs.
Proof.
  unfold realphabetize. destruct (sextets s) as [vs|] eqn:E; [|done].
  destruct (unpack vs) as [bs'|] eqn:U; [|done]. intros [= <-].
  eapply unpack_bytes; [by apply sextets_range in E | done].
Qed.

(** C5: an encoded text with a character outside the alphabet, or whose
    bytes the decompression cannot expand, makes the decoder fail with
    [DecodeError]; it returns no text, truncated or not. *)
Theorem decode_rejects_malformed inflate s :
  (∃ c, In c (list_ascii_of_string s) ∧ ¬ In c (list_ascii_of_string alphabet)) ∨
  (∃ bs, realphabetize s = inr bs ∧ inflate bs = None) →
  decode_plantuml inflate s = inl DecodeError.
Proof.
  unfold decode_plantuml. intros [(c & Hin & Hout)|(bs & Hbs & Hinf)].
  - unfold realphabetize.
    by rewrite (sextets_outside s c Hin (index_from_None 0 c alphabet Hout)).
  - rewrite Hbs. simpl. by rewrite Hinf.
Qed.

Lemma decode_rejects_malformed_witness :
  decode_plantuml Demo.inflate "0G80_VzeQG" = inr "hi" ∧
  decode_plantuml Demo.inflate "0G80_Vze!G" = inl DecodeError ∧
  decode_plantuml Demo.inflate "1m00" = inl DecodeError.
Proof.
  split; [reflexivity|]. split.
  - apply decode_rejects_malformed. left. exists "!"%char. split.
    + simpl. auto 10.
    + intros Hin. vm_compute in Hin.
      repeat (destruct Hin as [Hin|Hin]; [discriminate Hin|]). exact Hin.
  - apply decode_rejects_malformed. right. exists [7; 0; 0]. by split.
Defined.

(** The same through the route: with a supported image type the handler
    fails with [DecodeError] and the renderer is not called. *)
Lemma get_rejects_malformed inflate wireviz_render imagetype encoded w :
  In imagetype supported_types →
  decode_plantuml inflate encoded = inl DecodeError →
  RenderPlantUML.get inflate wireviz_render imagetype encoded w = (inl DecodeError, w).
Proof.
  intros Ht Hd. unfold RenderPlantUML.get, bind, lift.
  pose proof (type_mimetype_roundtrip imagetype Ht) as Hr.
  destruct (type_to_mimetype imagetype) as [e|m]; [done|]. by rewrite Hd.
Qed.

(** An image type outside the supported set is refused before the text is
    looked at. *)
Lemma get_rejects_unknown_type inflate wireviz_render imagetype encoded w :
  ¬ In imagetype supported_types →
  RenderPlantUML.get inflate wireviz_render imagetype encoded w
  = (inl (UnsupportedFormat imagetype), w).
Proof.
  intros Ht. unfold RenderPlantUML.get, bind, lift.
  by rewrite (type_to_mimetype_unknown imagetype Ht).
Qed.

End Decoder.

(** ** The course of the block under [with] *)

Section Course.
Import RenderRegular.

Lemma io_logged {A} ev (m : M A) : io m → io (logged ev m).
Proof. intros Hm w r w' Hrun. unfold logged in Hrun. by apply Hm in Hrun. Qed.

Lemma io_host_call {A} call target (f : World → option (A * World)) :
  (∀ w a w', f w = Some (a, w') → console w' = console w) →
  io (host_call call target f).
Proof.
  intros Hf w r w'. unfold host_call.
  assert (Hfail : (inl (OSError call target), set_faults (tail (faults w)) w) = (r, w') →
            console w' = console w ∧ ∀ e, r = inl e → ∃ c t, e = OSError c t).
  { intros [= <- <-]. split; [done|]. intros e [= <-]. eauto. }
  assert (Hgo : match f (set_faults (tail (faults w)) w) with
                | Some (a, w2) => (inr a, w2)
                | None => (inl (OSError call target), set_faults (tail (faults w)) w)
                end = (r, w') →
            console w' = console w ∧ ∀ e, r = inl e → ∃ c t, e = OSError c t).
  { destruct (f _) as [[a w2]|] eqn:E; [|exact Hfail].
    intros [= <- <-]. apply Hf in E. by split. }
  destruct (faults w) as [|[] ?]; simpl; eauto.
Qed.

Lemma io_disk_call {A} call target
    (g : World → option Disk) (res : World → Disk → A * World) :
  (∀ w d, console (res w d).2 = console w) →
  io (host_call call target (λ w, d ← g w; Some (res w d))).
Proof.
  intros Hres. apply io_host_call. intros w a w' Hf.
  destruct (g w) as [d|]; simpl in Hf; [|done].
  injection Hf as Hf. specialize (Hres w d). by rewrite Hf in Hres.
Qed.

Lemma io_open_write p data : io (open_write p data).
Proof.
  apply io_logged.
  by apply (io_disk_call _ _ (λ w, Fs.write (cwd w) p data (disk w))
              (λ w d, (tt, set_disk d w))).
Qed.

(** A save prints nothing and fails with [OSError], or with [ValueError]
    when its target has a NUL byte. *)
Lemma save_course data dst w r w' :
  save data dst w = (r, w') →
  console w' = console w ∧
  ∀ e, r = inl e →
    (∃ c t, e = OSError c t) ∨
    (e = ValueError "embedded null byte" ∧ Path.has_nul dst = true).
Proof.
  unfold save, logged. destruct (Path.has_nul dst).
  - intros [= <- <-]. split; [done|]. intros e [= <-]. by right.
  - intros Hrun.
    apply (io_disk_call _ _ (λ w, Fs.write (cwd w) dst data (disk w))
             (λ w d, (tt, set_disk d w))) in Hrun as [Hc He]; [|done].
    split; [done|]. intros e Hr. left. by apply He.
Qed.

Lemma save_all_course resdir imgs : ∀ w r w',
  for_each imgs (λ img, save (stream img) (Path.join resdir (filename img))) w = (r, w') →
  console w' = console w ∧
  ∀ e, r = inl e →
    (∃ c t, e = OSError c t) ∨
    (e = ValueError "embedded null byte" ∧
     ∃ img, In img imgs ∧ Path.has_nul (Path.join resdir (filename img)) = true).
Proof.
  induction imgs as [|img rest IH]; intros w r w'; simpl.
  { by intros [= <- <-]. }
  unfold bind. destruct (save _ _ w) as [[e|[]] w1] eqn:E; apply save_course in E as [Hc He].
  - intros [= <- <-]. split; [done|]. intros e0 [= <-].
    destruct (He e eq_refl) as [?|[-> Hn]]; [by left|]. right. split; [done|].
    exists img. split; [by left | done].
  - intros Hrun. apply IH in Hrun as [Hc' He']. split; [congruence|].
    intros e Hr. destruct (He' e Hr) as [?|[-> (i & Hi & Hn)]]; [by left|].
    right. split; [done|]. exists i. split; [by right | done].
Qed.

Lemma io_makedirs p : io (makedirs p).
Proof.
  apply io_logged.
  by apply (io_disk_call _ _ (λ w, Fs.makedirs (cwd w) p (disk w))
              (λ w d, (tt, set_disk d w))).
Qed.

(** Staging prints nothing and fails as [stage_failure] says. *)
Lemma stage_course yaml imgs tmp w r ws :
  stage yaml imgs tmp w = (r, ws) →
  console ws = console w ∧ ∀ e, r = inl e → stage_failure tmp imgs e.
Proof.
  unfold stage, bind, stage_failure.
  destruct (open_write _ _ w) as [[e|[]] w1] eqn:E; apply io_open_write in E as [Hc He].
  { intros [= <- <-]. split; [done|]. intros e0 [= <-]. left. by apply He. }
  destruct imgs as [|img0 imgs0].
  { by intros [= <- <-]. }
  destruct (makedirs _ w1) as [[e|[]] w2] eqn:E2; apply io_makedirs in E2 as [Hc2 He2].
  { intros [= <- <-]. split; [congruence|]. intros e0 [= <-]. left. by apply He2. }
  intros Hrun. apply save_all_course in Hrun as [Hc3 He3]. split; [congruence | done].
Qed.

(** A logged host call that touches only the disk logs itself and nothing
    more. *)
Lemma logged_log {A} ev (m : M A) w r w' :
  emits (λ _, False) m → logged ev m w = (r, w') → log w' = log w ++ [ev].
Proof.
  intros Hm Hrun. unfold logged in Hrun. apply Hm in Hrun as (_ & evs & Hl & Hf).
  destruct evs as [|x evs]; [by rewrite app_nil_r in Hl | by inversion Hf].
Qed.

Lemma open_write_log p data w r w' :
  open_write p data w = (r, w') → log w' = log w ++ [EvOpenWrite p].
Proof.
  apply logged_log.
  by apply (emits_disk_call _ _ (λ w, Fs.write (cwd w) p data (disk w))
              (λ w d, (tt, set_disk d w))).
Qed.

Lemma save_log data dst w r w' :
  save data dst w = (r, w') → log w' = log w ++ [EvSave dst].
Proof.
  apply logged_log. destruct (Path.has_nul dst); [apply emits_raise|].
  by apply (emits_disk_call _ _ (λ w, Fs.write (cwd w) dst data (disk w))
              (λ w d, (tt, set_disk d w))).
Qed.

Lemma makedirs_log p w r w' :
  makedirs p w = (r, w') → log w' = log w ++ [EvMakedirs p].
Proof.
  apply logged_log.
  by apply (emits_disk_call _ _ (λ w, Fs.makedirs (cwd w) p (disk w))
              (λ w d, (tt, set_disk d w))).
Qed.

(** The loop over the uploads saves them in their order and stops at the
    first that fails. *)
Lemma save_all_log resdir imgs : ∀ w r w',
  for_each imgs (λ img, save (stream img) (Path.join resdir (filename img))) w = (r, w') →
  ∃ tried,
    log w' = log w ++ tried ∧
    tried `prefix_of` map (λ img, EvSave (Path.join resdir (filename img))) imgs ∧
    (r = inr tt → tried = map (λ img, EvSave (Path.join resdir (filename img))) imgs).
Proof.
  induction imgs as [|img rest IH]; intros w r w'; simpl.
  { intros [= <- <-]. exists []. by rewrite app_nil_r. }
  unfold bind. destruct (save _ _ w) as [[e|[]] w1] eqn:E; apply save_log in E.
  - intros [= <- <-]. eexists. split; [exact E|]. split; [|done].
    by exists (map (λ img, EvSave (Path.join resdir (filename img))) rest).
  - intros Hrun. apply IH in Hrun as (tried & Hl & Hp & Hok).
    exists (EvSave (Path.join resdir (filename img)) :: tried).
    split; [rewrite Hl, E, <- app_assoc; reflexivity|].
    split; [by apply prefix_cons | intros Hr; by rewrite (Hok Hr)].
Qed.

(** Staging follows its plan and stops at the first call that fails. *)
Lemma stage_log yaml imgs tmp w r w' :
  stage yaml imgs tmp w = (r, w') →
  ∃ tried,
    log w' = log w ++ tried ∧ tried `prefix_of` stage_plan tmp imgs ∧
    (r = inr tt → tried = stage_plan tmp imgs).
Proof.
  unfold stage, stage_plan, bind.
  destruct (open_write _ _ w) as [[e|[]] w1] eqn:E; apply open_write_log in E.
  { intros [= <- <-]. eexists. split; [exact E|]. split; [|done]. by eexists. }
  destruct imgs as [|img0 imgs0].
  { intros [= <- <-]. eexists. split; [exact E|]. done. }
  set (imgs := img0 :: imgs0).
  destruct (makedirs _ w1) as [[e|[]] w2] eqn:E2; apply makedirs_log in E2.
  { intros [= <- <-]. exists [EvOpenWrite (Path.join tmp "input.yml");
                             EvMakedirs (Path.join tmp "resources")].
    split; [rewrite E2, E, <- app_assoc; reflexivity|]. split; [|done].
    do 2 apply prefix_cons. apply prefix_nil. }
  intros Hrun. apply save_all_log in Hrun as (tried & Hl & Hp & Hok).
  exists (EvOpenWrite (Path.join tmp "input.yml")
          :: EvMakedirs (Path.join tmp "resources") :: tried).
  split; [rewrite Hl, E2, E, <- !app_assoc; reflexivity|].
  split; [by do 2 apply prefix_cons | intros Hr; by rewrite (Hok Hr)].
Qed.

Lemma invoke_course h tmp fmt w r w' :
  invoke h (Path.join tmp "input.yml") tmp fmt w = (r, w') →
  (∃ c t, r = inl (OSError c t) ∧
     log w' = log w ∧ disk w' = disk w ∧ console w' = console w ∧ cwd w' = cwd w) ∨
  (engine_ran h tmp fmt w w' ∧
   r = if engine_status h tmp fmt w =? 0 then inr tt
       else
         let e := mkProcessError (engine_status h tmp fmt w)
                    (command (Path.join tmp "input.yml") tmp fmt) None None in
         inl (RuntimeError ("WireViz failed: " +:+ Py.CalledProcessError_str h e)
                (Some e))).
Proof.
  unfold invoke, try_except, Py.check_call, bind, host_call, engine_ran, engine_status.
  destruct (faults w) as [|[] rest]; simpl.
  2:{ intros [= <- <-]. left. eexists _, _. by repeat split. }
  all: destruct (status _ =? 0); simpl; unfold raise, ret;
    intros [= <- <-]; right; by repeat split.
Qed.

Lemma open_read_course p w r w' :
  open_read p w = (r, w') →
  log w' = log w ++ [EvOpenRead p] ∧ disk w' = disk w ∧
  console w' = console w ∧ cwd w' = cwd w ∧
  (r = inl (OSError "open" p) ∨
   ∃ b, r = inr b ∧ Fs.read (cwd w) p (disk w) = Some b).
Proof.
  unfold open_read, logged, host_call. simpl.
  assert (Hgo : ∀ fs,
    match
      Fs.read (cwd w) p (disk w) ≫= (λ b, Some (b, set_faults fs (emit (EvOpenRead p) w)))
    with
    | Some (a, w2) => (inr a, w2)
    | None => (inl (OSError "open" p), set_faults fs (emit (EvOpenRead p) w))
    end = (r, w') →
    log w' = log w ++ [EvOpenRead p] ∧ disk w' = disk w ∧
    console w' = console w ∧ cwd w' = cwd w ∧
    (r = inl (OSError "open" p) ∨
     ∃ b, r = inr b ∧ Fs.read (cwd w) p (disk w) = Some b)).
  { intros fs. destruct (Fs.read (cwd w) p (disk w)) as [b|]; simpl;
      intros [= <- <-]; repeat split; eauto. }
  destruct (faults w) as [|[] rest]; simpl; [apply Hgo| |apply Hgo].
  intros [= <- <-]. repeat split; eauto.
Qed.

(** Every run of the block under [with] takes one of the four courses. *)
Lemma render_course_of_run h yaml imgs fmt tmp w r w' :
  render h yaml imgs fmt tmp w = (r, w') → render_course h yaml imgs fmt tmp w r w'.
Proof.
  intros Hrun. apply render_inv in Hrun as (rs & ws & Hst & Hrest).
  destruct rs as [e|[]].
  { destruct Hrest as [-> ->].
    destruct (stage_course _ _ _ _ _ _ Hst) as [_ He].
    constructor; [done | by apply He]. }
  destruct Hrest as (ri & wi & Hi & Hrest).
  apply invoke_course in Hi
    as [(c & t & -> & Hl & Hd & Hc & Hcw)|[Hran Hri]].
  { destruct Hrest as [-> ->]. by eapply rc_not_started. }
  destruct (engine_status h tmp fmt ws =? 0) eqn:Es; subst ri.
  - apply Z.eqb_eq in Es. unfold collect in Hrest. rewrite staged_stem in Hrest.
    apply open_read_course in Hrest as (Hl & Hd & Hc & Hcw & Hr).
    by eapply rc_engine_done.
  - apply Z.eqb_neq in Es. destruct Hrest as [-> ->]. by apply rc_engine_failed.
Qed.

Lemma mkdtemp_console w r w1 : mkdtemp w = (r, w1) → console w1 = console w.
Proof.
  unfold mkdtemp, host_call.
  assert (Hfrom : ∀ w0 cs name w2,
            mkdtemp_from w0 cs = Some (name, w2) → console w2 = console w0).
  { intros w0 cs name w2 H. induction cs as [|sfx rest IH]; simpl in H; [done|].
    destruct (Path.entry _ _ _) as [k|]; [|done].
    destruct (decide _); [by apply IH|].
    destruct (files (disk w0) !! k); [by apply IH|]. by injection H as _ <-. }
  assert (Hgo : ∀ w0, console w0 = console w →
    match
      match mkdtemp_from w0 (supply w0) with
      | Some (a, w2) => (inr a, w2)
      | None => (inl (OSError "mkdtemp" (tempdir w)), w0)
      end
    with
    | (inr name, w') => (inr name, emit (EvMkdtemp name) w')
    | (inl e, w') => (inl e, w')
    end = (r, w1) → console w1 = console w).
  { intros w0 Hc. destruct (mkdtemp_from w0 (supply w0)) as [[name w2]|] eqn:E;
      intros [= <- <-]; [|done]. apply Hfrom in E. simpl. congruence. }
  destruct (faults w) as [|[] rest]; simpl;
    [apply (Hgo (set_faults [] w) eq_refl) | | apply (Hgo (set_faults rest w) eq_refl)].
  by intros [= <- <-].
Qed.

End Course.

(** ** The course of a request *)

Section Request.
Import RenderRegular.

Lemma mkdtemp_error w e w1 : mkdtemp w = (inl e, w1) → ∃ c t, e = OSError c t.
Proof.
  unfold mkdtemp, host_call.
  assert (Hgo : ∀ w0,
    match
      match mkdtemp_from w0 (supply w0) with
      | Some (a, w2) => (inr a, w2)
      | None => (inl (OSError "mkdtemp" (tempdir w)), w0)
      end
    with
    | (inr name, w') => (inr name, emit (EvMkdtemp name) w')
    | (inl e, w') => (inl e, w')
    end = (inl e, w1) → ∃ c t, e = OSError c t).
  { intros w0. destruct (mkdtemp_from w0 (supply w0)) as [[name w2]|];
      intros [= <- <-]. eauto. }
  destruct (faults w) as [|[] rest]; simpl;
    [apply (Hgo (set_faults [] w)) | | apply (Hgo (set_faults rest w))].
  intros [= <- <-]. eauto.
Qed.

Lemma post_course_of_run h req w r w' :
  post h req w = (r, w') → post_course h req w r w'.
Proof.
  unfold post, parse_args, bind, lift, ret, raise, with_TemporaryDirectory.
  destruct (yml_file req) as [f|] eqn:Ey.
  2:{ intros [= <- <-]. by constructor. }
  destruct (Core.mimetype_to_type _) as [e|fmt] eqn:Em; simpl.
  { intros [= <- <-]. by eapply pc_no_format. }
  destruct (PurePath.with_suffix _ _) as [e|p] eqn:Es; simpl.
  { intros [= <- <-]. destruct (with_suffix_error _ _ _ Es) as [msg ->].
    by eapply pc_no_name. }
  destruct (mkdtemp w) as [[e|tmp] w1] eqn:Et.
  { intros [= <- <-]. destruct (mkdtemp_error _ _ _ Et) as (c & t & ->).
    by eapply pc_no_tempdir. }
  destruct (render h (stream f) (images req) fmt tmp w1) as [rr w2] eqn:Er.
  apply render_course_of_run in Er.
  destruct (cleanup tmp w2) as [rc w3] eqn:Ec.
  pose proof (pc_rendered h req w f fmt p tmp w1 rr w2 rc w3 Ey Em Es Et Er Ec) as Hrun.
  destruct rc as [e|[]]; [|destruct rr as [e|payload]]; by intros [= <- <-].
Qed.



(** What a run of the handler leaves behind, in full. *)
Lemma post_summary h req w r w' :
  post h req w = (r, w') →
  cwd w' = cwd w ∧
  ((log w' = log w ∧ console w' = console w ∧ disk w' = disk w ∧ ∃ e, r = inl e) ∨
   ∃ f fmt p tmp w1 rs ws rr rc,
     yml_file req = Some f ∧
     Core.mimetype_to_type (Py.or_else (accept req) "image/svg+xml") = inr fmt ∧
     PurePath.with_suffix (PurePath.parse (filename f)) ("." +:+ fmt) = inr p ∧
     mkdtemp w = (inr tmp, w1) ∧
     stage (stream f) (images req) tmp w1 = (rs, ws) ∧
     r = answer req p (leave rc rr) ∧
     ((∃ tried e, tried `prefix_of` stage_plan tmp (images req) ∧ rr = inl e ∧
         stage_failure tmp (images req) e ∧ never_ran tmp tried ws w w' rc) ∨
      (rs = inr tt ∧
       ran_once h fmt tmp (stage_plan tmp (images req)) ws w w' rr rc))).
Proof.
  intros Hrun. apply post_course_of_run in Hrun.
  destruct Hrun as [Hy|f e0 Hy Hm|f fmt msg Hy Hm Hs|f fmt p c t w1 Hy Hm Hs Ht
                    |f fmt p tmp w1 rr w2 rc w3 Hy Hm Hs Ht Hc Hcl].
  1-3: split; [done|]; left; repeat split; eauto.
  - pose proof (mkdtemp_console _ _ _ Ht) as Hcon.
    apply mkdtemp_inv in Ht as [Hcw [(e' & _ & Hl & Hd)|(n & ? & ? & [=] & _)]].
    split; [done|]. left. repeat split; eauto.
  - pose proof (mkdtemp_console _ _ _ Ht) as Hcon.
    pose proof Ht as Ht0.
    apply mkdtemp_inv in Ht as [Hcw [(e' & [=] & _)|(n & sfx & k & [= <-] & Hl & _)]].
    apply cleanup_inv in Hcl as (Hl3 & Hcw3 & Hcon3 & Hsw).
    assert (Hstage : ∀ rs ws, stage (stream f) (images req) tmp w1 = (rs, ws) →
              cwd ws = cwd w ∧ console ws = console w ∧
              ∃ tried, log ws = log w ++ EvMkdtemp tmp :: tried ∧
                tried `prefix_of` stage_plan tmp (images req) ∧
                (rs = inr tt → tried = stage_plan tmp (images req))).
    { intros rs ws Hst.
      destruct (stage_course _ _ _ _ _ _ Hst) as [Hc1 _].
      destruct (emits_stage _ _ _ _ _ _ Hst) as [Hc2 _].
      apply stage_log in Hst as (tried & Hls & Hp & Hok).
      split; [congruence|]. split; [congruence|]. exists tried.
      split; [rewrite Hls, Hl, <- app_assoc; reflexivity | done]. }
    destruct Hc as [e ws Hst Hfail|c t ws w0 Hst Hl0 Hd0 Hc0 Hcw0
                    |ws w0 Hst Hran Hne|ws wi r0 w0 Hst Hran Hz Hl0 Hd0 Hc0 Hcw0 Hread].
    + destruct (Hstage _ _ Hst) as (Hcws & Hcons & tried & Hlog & Hp & _).
      split; [congruence|]. right.
      exists f, fmt, p, tmp, w1, (inl e), ws, (inl e), rc.
      repeat (split; [done|]). left. exists tried, e.
      repeat (split; [done|]). split; [|split; [congruence|]].
      * rewrite Hl3, Hlog, <- app_assoc. reflexivity.
      * by rewrite <- Hcws.
    + destruct (Hstage _ _ Hst) as (Hcws & Hcons & tried & Hlog & Hp & Hok).
      split; [congruence|]. right.
      exists f, fmt, p, tmp, w1, (inr tt), ws, (inl (OSError c t)), rc.
      repeat (split; [done|]). left. exists tried, (OSError c t).
      split; [done|]. split; [done|]. split; [left; eauto|].
      split; [|split; [congruence|]].
      * rewrite Hl3, Hl0, Hlog, <- app_assoc. reflexivity.
      * by rewrite <- Hcws, <- Hcw0, <- Hd0.
    + destruct (Hstage _ _ Hst) as (Hcws & Hcons & tried & Hlog & _ & Hok).
      rewrite (Hok eq_refl) in Hlog.
      destruct Hran as (Hlr & Hdr & Hcr & Hcwr).
      split; [congruence|]. right.
      exists f, fmt, p, tmp, w1, (inr tt), ws,
        (inl (RuntimeError ("WireViz failed: " +:+ Py.CalledProcessError_str h e) (Some e))),
        rc.
      repeat (split; [done|]). right. split; [done|].
      unfold ran_once. split; [congruence|].
      split; [by rewrite <- Hcws, <- Hcwr, <- Hdr|]. left.
      split; [done|]. split; [|done].
      rewrite Hl3, Hlr, Hlog, <- !app_assoc. reflexivity.
    + destruct (Hstage _ _ Hst) as (Hcws & Hcons & tried & Hlog & _ & Hok).
      rewrite (Hok eq_refl) in Hlog.
      destruct Hran as (Hlr & Hdr & Hcr & Hcwr).
      split; [congruence|]. right.
      exists f, fmt, p, tmp, w1, (inr tt), ws, r0, rc.
      repeat (split; [done|]). right. split; [done|].
      unfold ran_once. split; [congruence|].
      split; [by rewrite <- Hcws, <- Hcwr, <- Hcw0, <- Hdr, <- Hd0|]. right.
      split; [done|]. split.
      * rewrite Hl3, Hl0, Hlr, Hlog, <- !app_assoc. reflexivity.
      * rewrite <- Hdr, <- Hcws, <- Hcwr. exact Hread.
Qed.

Lemma plan_events tmp imgs tried :
  tried `prefix_of` stage_plan tmp imgs → Forall (stage_event tmp) tried.
Proof.
  intros [rest Hp]. assert (Hall : Forall (stage_event tmp) (stage_plan tmp imgs)).
  { unfold stage_plan. constructor; [constructor|].
    destruct imgs as [|img0 imgs0]; [constructor|].
    constructor; [constructor|]. apply Forall_forall. intros ev Hin.
    apply list_elem_of_In, in_map_iff in Hin as (img & <- & _). constructor. }
  rewrite Hp in Hall. by apply Forall_app in Hall as [? _].
Qed.

Lemma in_run ev tmp tried tail :
  Forall (stage_event tmp) tried → In ev (EvMkdtemp tmp :: tried ++ tail) →
  ev = EvMkdtemp tmp ∨ stage_event tmp ev ∨ In ev tail.
Proof.
  intros Hall [<-|Hin]; [by left|]. right.
  apply in_app_or in Hin as [Hin|Hin]; [left | by right].
  rewrite Forall_forall in Hall. by apply Hall, list_elem_of_In.
Qed.

(** X2: the host calls of a request come in a fixed order: the temporary
    directory, the staging calls of the plan as far as they go, the engine
    once and only after complete staging, the read of its output only after
    the engine, and the cleanup last. *)
Theorem host_calls_in_order h req w r w' :
  post h req w = (r, w') →
  ∃ evs, log w' = log w ++ evs ∧
    (evs = [] ∨
     ∃ tmp fmt tried tail,
       Core.mimetype_to_type (Py.or_else (accept req) "image/svg+xml") = inr fmt ∧
       evs = EvMkdtemp tmp :: tried ++ tail ++ [EvCleanup tmp] ∧
       tried `prefix_of` stage_plan tmp (images req) ∧
       (tail = [] ∨
        tried = stage_plan tmp (images req) ∧
        ∃ seen,
          tail = [EvExec (command (Path.join tmp "input.yml") tmp fmt) seen] ∨
          tail = [EvExec (command (Path.join tmp "input.yml") tmp fmt) seen;
                  EvOpenRead (Path.join tmp ("input." +:+ fmt))])).
Proof.
  intros Hrun. apply post_summary in Hrun as [_ [(Hl & _)|Hrest]].
  { exists []. split; [by rewrite app_nil_r | by left]. }
  destruct Hrest as (f & fmt & p & tmp & w1 & rs & ws & rr & rc & _ & Hm & _ & _ & _ & _ & Hc).
  destruct Hc as [(tried & e & Hp & _ & _ & Hl & _)|[_ (_ & _ & Hlog)]].
  - eexists. split; [exact Hl|]. right. exists tmp, fmt, tried, [].
    repeat split; try done. by left.
  - destruct Hlog as [(_ & Hl & _)|(_ & Hl & _)];
      (eexists; split; [exact Hl|]); right;
      exists tmp, fmt, (stage_plan tmp (images req)); eexists;
      (split; [done|]); (split; [|split; [done|right; split; [done|]]]).
    + instantiate (1 := [_]). reflexivity.
    + eexists. by left.
    + instantiate (1 := [_; _]). reflexivity.
    + eexists. by right.
Qed.

Lemma host_calls_in_order_witness :
  let req := Demo.request None Demo.twice in
  let run := post Demo.host_ok req Demo.world in
  log run.2 =
    [EvMkdtemp Demo.tmp;
     EvOpenWrite "/tmp/tmpk3x9q2ab/input.yml";
     EvMakedirs "/tmp/tmpk3x9q2ab/resources";
     EvSave "/tmp/tmpk3x9q2ab/resources/a.png";
     EvSave "/tmp/tmpk3x9q2ab/resources/a.png";
     EvExec ["wireviz"; "/tmp/tmpk3x9q2ab/input.yml"; "-o"; "/tmp/tmpk3x9q2ab"]
       (mkDisk {[ ["tmp"; "tmpk3x9q2ab"; "input.yml"] := Demo.data "connectors: {}";
                  ["tmp"; "tmpk3x9q2ab"; "resources"; "a.png"] := Demo.data "second" ]}
               {[ ["tmp"]; ["srv"]; ["tmp"; "tmpk3x9q2ab"];
                  ["tmp"; "tmpk3x9q2ab"; "resources"] ]});
     EvOpenRead "/tmp/tmpk3x9q2ab/input.svg";
     EvCleanup Demo.tmp] ∧
  ∃ evs, log run.2 = log Demo.world ++ evs ∧
    (evs = [] ∨
     ∃ tmp fmt tried tail,
       Core.mimetype_to_type (Py.or_else (accept req) "image/svg+xml") = inr fmt ∧
       evs = EvMkdtemp tmp :: tried ++ tail ++ [EvCleanup tmp] ∧
       tried `prefix_of` stage_plan tmp (images req) ∧
       (tail = [] ∨
        tried = stage_plan tmp (images req) ∧
        ∃ seen,
          tail = [EvExec (command (Path.join tmp "input.yml") tmp fmt) seen] ∨
          tail = [EvExec (command (Path.join tmp "input.yml") tmp fmt) seen;
                  EvOpenRead (Path.join tmp ("input." +:+ fmt))])).
Proof.
  intros req run. split; [by vm_compute|].
  apply (host_calls_in_order Demo.host_ok req Demo.world run.1).
  apply surjective_pairing.
Defined.

(** A run of the handler seen from the engine: either the engine never ran,
    nothing was printed and the result is an error; or it ran exactly once,
    in the one temporary directory of the request. *)
Lemma post_engine_run h req w r w' :
  post h req w = (r, w') →
  ∃ evs, log w' = log w ++ evs ∧
    (((∀ argv seen, ¬ In (EvExec argv seen) evs) ∧
      console w' = console w ∧ ∃ e, r = inl e) ∨
     ∃ f fmt p tmp ws rr rc,
       yml_file req = Some f ∧
       Core.mimetype_to_type (Py.or_else (accept req) "image/svg+xml") = inr fmt ∧
       PurePath.with_suffix (PurePath.parse (filename f)) ("." +:+ fmt) = inr p ∧
       r = answer req p (leave rc rr) ∧
       ran_once h fmt tmp (stage_plan tmp (images req)) ws w w' rr rc ∧
       In (EvMkdtemp tmp) evs ∧
       (∀ t, In (EvMkdtemp t) evs → t = tmp) ∧
       (∀ argv seen, In (EvExec argv seen) evs →
          argv = command (Path.join tmp "input.yml") tmp fmt ∧ seen = disk ws)).
Proof.
  intros Hrun. apply post_summary in Hrun as [_ [(Hl & Hc & _ & He)|Hrest]].
  { exists []. split; [by rewrite app_nil_r|]. left.
    split; [intros ? ? []|]. by split. }
  destruct Hrest
    as (f & fmt & p & tmp & w1 & rs & ws & rr & rc & Hy & Hm & Hs & _ & _ & Hr & Hc).
  destruct Hc as [(tried & e & Hp & -> & _ & Hl & Hcon & Hsw)|[_ Hran]].
  - eexists. split; [exact Hl|]. left. split; [|split; [done|]].
    + intros argv seen Hin. apply in_run in Hin as [[=]|[Hin|Hin]];
        [inversion Hin | by destruct Hin as [[=]|[]] | by eapply plan_events].
    + subst r. destruct rc as [e'|[]]; simpl; eauto.
  - assert (Hall : Forall (stage_event tmp) (stage_plan tmp (images req))).
    { eapply plan_events. by exists []; rewrite app_nil_r. }
    pose proof Hran as (_ & _ & Hlog).
    set (argv0 := command (Path.join tmp "input.yml") tmp fmt) in *.
    assert (Hev : ∀ tail,
              tail = [EvExec argv0 (disk ws); EvCleanup tmp] ∨
              tail = [EvExec argv0 (disk ws);
                      EvOpenRead (Path.join tmp ("input." +:+ fmt)); EvCleanup tmp] →
              (∀ t, In (EvMkdtemp t)
                      (EvMkdtemp tmp :: stage_plan tmp (images req) ++ tail) → t = tmp) ∧
              (∀ argv seen,
                 In (EvExec argv seen)
                   (EvMkdtemp tmp :: stage_plan tmp (images req) ++ tail) →
                 argv = argv0 ∧ seen = disk ws)).
    { intros tail Htail. split.
      - intros t Hin. apply in_run in Hin as [[=]|[Hin|Hin]]; [done|inversion Hin| |done].
        destruct Htail as [-> | ->]; simpl in Hin;
          repeat (destruct Hin as [Hin|Hin]; [discriminate Hin|]); destruct Hin.
      - intros argv seen Hin.
        apply in_run in Hin as [[=]|[Hin|Hin]]; [inversion Hin| |done].
        destruct Htail as [-> | ->]; simpl in Hin;
          (destruct Hin as [[= <- <-]|Hin]; [done|]);
          repeat (destruct Hin as [Hin|Hin]; [discriminate Hin|]); destruct Hin. }
    destruct Hlog as [(_ & Hl & _)|(_ & Hl & _)];
      (eexists; split; [exact Hl|]); right;
      exists f, fmt, p, tmp, ws, rr, rc;
      (split; [done|]); (split; [done|]); (split; [done|]); (split; [done|]);
      (split; [exact Hran|]); (split; [by left|]); apply Hev; auto.
Qed.

(** X3: a response is returned only when the engine has run, once, with status
    0; its body is the content of [input.<fmt>] in the temporary directory
    on the disk the engine left, and its MIME type is the [Accept] header as
    sent, or the default. *)
Theorem response_is_engine_output h req w resp w' :
  post h req w = (inr resp, w') →
  ∃ evs fmt tmp seen,
    log w' = log w ++ evs ∧
    Core.mimetype_to_type (Py.or_else (accept req) "image/svg+xml") = inr fmt ∧
    In (EvMkdtemp tmp) evs ∧
    In (EvExec (command (Path.join tmp "input.yml") tmp fmt) seen) evs ∧
    (∀ argv seen', In (EvExec argv seen') evs →
       argv = command (Path.join tmp "input.yml") tmp fmt ∧ seen' = seen) ∧
    let o := run_process h (command (Path.join tmp "input.yml") tmp fmt) seen in
    status o = 0 ∧
    Fs.read (cwd w) (Path.join tmp ("input." +:+ fmt)) (after o) = Some (body resp) ∧
    mimetype resp = Py.or_else (accept req) "image/svg+xml".
Proof.
  intros Hrun. apply post_engine_run in Hrun as (evs & Hl & [(_ & _ & e & [=])|Hran]).
  destruct Hran
    as (f & fmt & p & tmp & ws & rr & rc & _ & Hm & _ & Hr & Hran & Ht & _ & Hexec).
  destruct rc as [e|[]]; [done|]. destruct rr as [e|payload]; [done|]. injection Hr as ->.
  destruct Hran as (_ & _ & [(_ & _ & [=])|(Hz & Hlog & Hread)]).
  destruct Hread as [[=]|(b & [= <-] & Hread)].
  exists evs, fmt, tmp, (disk ws). rewrite Hl in Hlog. apply app_inv_head in Hlog.
  split; [done|]. split; [done|]. split; [done|]. split.
  { rewrite Hlog. right. apply in_or_app. right. by left. }
  split; [exact Hexec|]. by repeat split.
Qed.

Lemma response_is_engine_output_witness :
  let req := Demo.request (Some "image/png") [] in
  let run := post Demo.host_ok req Demo.world in
  ∃ evs fmt tmp seen,
    log run.2 = log Demo.world ++ evs ∧
    Core.mimetype_to_type (Py.or_else (accept req) "image/svg+xml") = inr fmt ∧
    In (EvMkdtemp tmp) evs ∧
    In (EvExec (command (Path.join tmp "input.yml") tmp fmt) seen) evs ∧
    (∀ argv seen', In (EvExec argv seen') evs →
       argv = command (Path.join tmp "input.yml") tmp fmt ∧ seen' = seen) ∧
    let o := run_process Demo.host_ok (command (Path.join tmp "input.yml") tmp fmt) seen in
    status o = 0 ∧
    Fs.read (cwd Demo.world) (Path.join tmp ("input." +:+ fmt)) (after o)
    = Some (Demo.data "PNG") ∧
    "image/png" = Py.or_else (accept req) "image/svg+xml".
Proof.
  intros req run.
  apply (response_is_engine_output Demo.host_ok req Demo.world
           (mkResponse (Demo.data "PNG") "image/png"
              [("Content-Disposition", "attachment; filename=demo01.png")]) run.2).
  vm_compute. reflexivity.
Defined.



(** X5: what the engine prints is never captured: it is appended to the
    server's console, standard output then standard error, once; a request
    in which the engine does not run prints nothing. *)
Theorem engine_output_goes_to_console h req w r w' :
  post h req w = (r, w') →
  ∃ evs, log w' = log w ++ evs ∧
    ((∀ argv seen, ¬ In (EvExec argv seen) evs) → console w' = console w) ∧
    (∀ argv seen, In (EvExec argv seen) evs →
       console w' = console w ++ [out (run_process h argv seen);
                                  err (run_process h argv seen)]).
Proof.
  intros Hrun. apply post_engine_run in Hrun as (evs & Hl & Hcase).
  exists evs. split; [done|]. destruct Hcase as [(Hno & Hc & _)|Hran].
  - split; [done|]. intros argv seen Hx. by apply Hno in Hx.
  - destruct Hran
      as (f & fmt & p & tmp & ws & rr & rc & _ & _ & _ & _ & Hran & _ & _ & Hexec).
    pose proof Hran as (Hc & _ & Hlog). split.
    + intros Hno. exfalso.
      assert (Hin : In (EvExec (command (Path.join tmp "input.yml") tmp fmt) (disk ws)) evs).
      { destruct Hlog as [(_ & Hlog & _)|(_ & Hlog & _)];
          rewrite Hl in Hlog; apply app_inv_head in Hlog; rewrite Hlog;
          right; apply in_or_app; right; by left. }
      by apply Hno in Hin.
    + intros argv seen Hx. by apply Hexec in Hx as [-> ->].
Qed.

Lemma engine_output_goes_to_console_witness :
  console Demo.run_bad.2 = [""; "yaml: mapping values are not allowed here"] ∧
  ∃ evs, log Demo.run_bad.2 = log Demo.world ++ evs ∧
    ((∀ argv seen, ¬ In (EvExec argv seen) evs) →
       console Demo.run_bad.2 = console Demo.world) ∧
    (∀ argv seen, In (EvExec argv seen) evs →
       console Demo.run_bad.2
       = console Demo.world ++ [out (run_process Demo.host_bad argv seen);
                                err (run_process Demo.host_bad argv seen)]).
Proof.
  split; [reflexivity|].
  apply (engine_output_goes_to_console Demo.host_bad
           (Demo.request (Some "image/png") []) Demo.world Demo.run_bad.1).
  apply surjective_pairing.
Defined.



(** A failed cleanup takes the place of a failed engine: the engine exits
    with status 1 and leaves a file where its output directory was, and what
    the handler raises is the [OSError] of the cleanup. *)
Lemma cleanup_failure_masks_engine_failure :
  let run := post Demo.host_squat (Demo.request None []) Demo.world in
  let argv := ["wireviz"; "/tmp/tmpk3x9q2ab/input.yml"; "-o"; "/tmp/tmpk3x9q2ab"] in
  In (EvExec argv Demo.staged) (log run.2) ∧
  status (run_process Demo.host_squat argv Demo.staged) = 1 ∧
  run.1 = inl (OSError "rmtree" Demo.tmp).
Proof. intros run argv. split; [vm_compute; auto 10|]. by split. Qed.




End Request.

(** ** What staging does to the disk *)

Section StagedDisk.
Import RenderRegular.

Lemma entry_key d cwd p k : Path.entry d cwd p = Some k → Path.key cwd p = k.
Proof.
  unfold Path.entry, Path.key. destruct (Path.fits p); simpl; [|done].
  destruct (Path.is_leaf (List.last (Path.components p) "")) eqn:Hl; [|done].
  destruct (Path.walk _ _ _) as [parent|] eqn:Hw; [|done]. intros [= <-].
  pose proof (app_removelast_last "" (split_nonempty "/" p)) as Hc.
  fold (Path.components p) in Hc.
  set (c := List.last (Path.components p) "") in *.
  rewrite Hc, fold_left_app, (walk_key _ _ _ _ Hw). simpl. by apply step_leaf.
Qed.

(** A write that succeeds puts the data where the path string points and
    changes nothing else. *)
Lemma write_inv cwd p data d d' :
  Fs.write cwd p data d = Some d' →
  d' = mkDisk (<[Path.key cwd p := data]> (files d)) (dirs d).
Proof.
  unfold Fs.write. destruct (Path.entry d cwd p) as [k|] eqn:E; [|done].
  destruct (decide _); [done|]. intros [= <-]. by rewrite (entry_key _ _ _ _ E).
Qed.

Lemma mkdirs_walk_inv (fs : gmap path bytes) (ds ds' : gset path) l cur k :
  Path.walk ds cur l = Some k → Fs.mkdirs fs ds cur l = Some ds' → ds' = ds.
Proof.
  revert cur. induction l as [|c l IH]; intros cur; simpl; [by intros _ [= <-]|].
  destruct (String.eqb c "" || String.eqb c "."); [apply IH|].
  destruct (String.eqb c ".."); [apply IH|].
  destruct (decide (cur ++ [c] ∈ ds)) as [Hin|]; [|done].
  destruct (fs !! (cur ++ [c])); [done|].
  assert (Heq : {[cur ++ [c]]} ∪ ds = ds)
    by (by apply subseteq_union_1_L, singleton_subseteq_l).
  rewrite Heq. apply IH.
Qed.

(** [makedirs] of a plain name below a directory that exists creates that
    one directory, or nothing. *)
Lemma makedirs_inv d cwd a n k d' :
  plain n = true → directory d cwd a = Some k →
  Fs.makedirs cwd (Path.join a n) d = Some d' →
  d' = mkDisk (files d) ({[k ++ [n]]} ∪ dirs d).
Proof.
  intros Hp Hd. apply plain_inv in Hp as [H1 H2].
  destruct (components_join a n H1) as (pre & Hc & Hf & Ha).
  unfold Fs.makedirs. destruct (Path.fits _); [|done]. rewrite Hc, Ha, mkdirs_app.
  unfold directory in Hd. rewrite walk_filter, <- Hf, <- walk_filter in Hd.
  destruct (Fs.mkdirs (files d) (dirs d) _ pre) as [ds|] eqn:E; [|done]. simpl.
  rewrite (mkdirs_walk_inv _ _ _ _ _ _ Hd E), (walk_key _ _ _ _ Hd).
  unfold Path.is_leaf in H2. apply negb_true_iff in H2.
  apply orb_false_iff in H2 as [H2 H3]. rewrite H2, H3.
  destruct (files d !! (k ++ [n])); [done|]. by intros [= <-].
Qed.

(** A host call on the disk either fails and leaves the disk, or is the
    disk operation. *)
Lemma disk_call_inv call target ev (g : path → Disk → option Disk) w r w' :
  (logged ev $ host_call call target
     (λ w, d ← g (cwd w) (disk w); Some (tt, set_disk d w))) w = (r, w') →
  cwd w' = cwd w ∧
  (((∃ e, r = inl e) ∧ disk w' = disk w) ∨
   (r = inr tt ∧ g (cwd w) (disk w) = Some (disk w'))).
Proof.
  unfold logged, host_call. simpl.
  assert (Hgo : ∀ fs,
    match g (cwd w) (disk w) ≫= (λ d, Some ((), set_disk d (set_faults fs (emit ev w)))) with
    | Some (a, w2) => (inr a, w2)
    | None => (inl (OSError call target), set_faults fs (emit ev w))
    end = (r, w') →
    cwd w' = cwd w ∧
    (((∃ e, r = inl e) ∧ disk w' = disk w) ∨
     (r = inr tt ∧ g (cwd w) (disk w) = Some (disk w')))).
  { intros fs. destruct (g (cwd w) (disk w)) as [d|]; simpl; intros [= <- <-];
      (split; [done|]); [by right | left; eauto]. }
  destruct (faults w) as [|[] rest]; simpl; [apply Hgo| |apply Hgo].
  intros [= <- <-]. split; [done|]. left. eauto.
Qed.

Lemma open_write_disk p data w r w' :
  open_write p data w = (r, w') →
  cwd w' = cwd w ∧
  (((∃ e, r = inl e) ∧ disk w' = disk w) ∨
   (r = inr tt ∧ Fs.write (cwd w) p data (disk w) = Some (disk w'))).
Proof. apply (disk_call_inv "open" p _ (λ c d, Fs.write c p data d)). Qed.

Lemma save_disk data dst w r w' :
  save data dst w = (r, w') →
  cwd w' = cwd w ∧
  (((∃ e, r = inl e) ∧ disk w' = disk w) ∨
   (r = inr tt ∧ Fs.write (cwd w) dst data (disk w) = Some (disk w'))).
Proof.
  unfold save, logged. destruct (Path.has_nul dst).
  - intros [= <- <-]. split; [done|]. left. eauto.
  - apply (disk_call_inv "save" dst (EvSave dst) (λ c d, Fs.write c dst data d)).
Qed.

Lemma makedirs_disk p w r w' :
  makedirs p w = (r, w') →
  cwd w' = cwd w ∧
  (((∃ e, r = inl e) ∧ disk w' = disk w) ∨
   (r = inr tt ∧ Fs.makedirs (cwd w) p (disk w) = Some (disk w'))).
Proof. apply (disk_call_inv "makedirs" p _ (λ c d, Fs.makedirs c p d)). Qed.

(** The loop over the uploads, whatever their names and however it ends:
    directories are left alone, files are added or replaced, never removed,
    and only at the uploads' targets; if it ends well, every target holds a
    file. *)
Lemma save_all_disk resdir imgs : ∀ w r w',
  for_each imgs (λ img, save (stream img) (Path.join resdir (filename img))) w = (r, w') →
  cwd w' = cwd w ∧ dirs (disk w') = dirs (disk w) ∧
  (∀ x, is_Some (files (disk w) !! x) → is_Some (files (disk w') !! x)) ∧
  (∀ x, (∀ img, In img imgs → x ≠ Path.key (cwd w) (Path.join resdir (filename img))) →
        files (disk w') !! x = files (disk w) !! x) ∧
  (r = inr tt →
   ∀ img, In img imgs →
     is_Some (files (disk w') !! Path.key (cwd w) (Path.join resdir (filename img)))).
Proof.
  induction imgs as [|img rest IH]; intros w r w'; simpl.
  { intros [= <- <-]. by repeat split. }
  unfold bind. destruct (save _ _ w) as [[e|[]] w1] eqn:E;
    apply save_disk in E as [Hc [[[e' He'] Hd]|[Hr' Hw]]]; try done.
  { intros [= <- <-]. rewrite Hd. by repeat split. }
  apply write_inv in Hw. intros Hrun.
  apply IH in Hrun as (Hc' & Hds & Hmono & Hframe & Hok).
  rewrite Hc in *. rewrite Hw in *. simpl in *.
  split; [congruence|]. split; [done|]. split; [|split].
  - intros x Hx. apply Hmono.
    destruct (decide (Path.key (cwd w) (Path.join resdir (filename img)) = x)) as [->|Hne].
    + rewrite lookup_insert_eq. by eexists.
    + by rewrite lookup_insert_ne.
  - intros x Hx. rewrite Hframe by (intros ? ?; apply Hx; by right).
    rewrite lookup_insert_ne; [done|]. intros Heq. by apply (Hx img); [left|].
  - intros Hr i [<-|Hin]; [|by apply Hok].
    apply Hmono. rewrite lookup_insert_eq. by eexists.
Qed.

(** For plain names and a loop that ends well: under each name, the last
    upload so called. *)
Lemma save_all_latest resdir imgs : ∀ w w',
  Forall (λ img, plain (filename img) = true) imgs →
  for_each imgs (λ img, save (stream img) (Path.join resdir (filename img))) w
  = (inr tt, w') →
  ∀ n, files (disk w') !! (Path.key (cwd w) resdir ++ [n])
       = match latest imgs n with
         | Some b => Some b
         | None => files (disk w) !! (Path.key (cwd w) resdir ++ [n])
         end.
Proof.
  induction imgs as [|img rest IH]; intros w w' Hp; simpl.
  { by intros [= <-]. }
  apply Forall_cons in Hp as [Hp Hrest].
  unfold bind. destruct (save _ _ w) as [[e|[]] w1] eqn:E; [done|].
  apply save_disk in E as [Hc [[[e [=]] _]|[_ Hw]]].
  apply write_inv in Hw. intros Hrun n.
  rewrite <- Hc. rewrite (IH _ _ Hrest Hrun n). rewrite Hc, Hw. simpl.
  destruct (latest rest n); [done|].
  apply plain_inv in Hp as [H1 H2]. rewrite (key_join _ _ _ H1 H2), lookup_insert.
  destruct (String.eqb_spec (filename img) n) as [->|Hne].
  - by rewrite decide_True.
  - rewrite decide_False; [done|]. intros Heq. by apply app_inv_head in Heq as [= ?].
Qed.

Lemma plain_resources : plain "resources" = true.
Proof. reflexivity. Qed.

Lemma plain_input : plain "input.yml" = true.
Proof. reflexivity. Qed.

Lemma key_plain cwd a n : plain n = true → Path.key cwd (Path.join a n) = Path.key cwd a ++ [n].
Proof. intros Hp. apply plain_inv in Hp as [H1 H2]. by apply key_join. Qed.

(** Staging with plain upload names: files change only at [input.yml] and
    under [resources] below the temporary directory; when it ends well,
    [input.yml] holds the description and each name under [resources] its
    last upload. *)
Lemma stage_files yaml imgs tmp w r ws :
  Forall (λ img, plain (filename img) = true) imgs →
  stage yaml imgs tmp w = (r, ws) →
  let kt := Path.key (cwd w) tmp in
  cwd ws = cwd w ∧
  (∀ x, ¬ Path.under kt x → files (disk ws) !! x = files (disk w) !! x) ∧
  (r = inr tt →
   files (disk ws) !! (kt ++ ["input.yml"]) = Some yaml ∧
   ∀ n, files (disk ws) !! (kt ++ ["resources"; n])
        = match latest imgs n with
          | Some b => Some b
          | None => files (disk w) !! (kt ++ ["resources"; n])
          end).
Proof.
  intros Hp Hrun kt. unfold stage, bind in Hrun.
  assert (Hout : ∀ x l, ¬ Path.under kt x → x ≠ kt ++ l).
  { intros x l Hn ->. apply Hn. by exists l. }
  destruct (open_write _ _ w) as [[e|[]] w1] eqn:E;
    apply open_write_disk in E as [Hc [[[e' He'] Hd]|[Hr' Hw]]]; try done.
  { injection Hrun as <- <-. rewrite Hd. by repeat split. }
  apply write_inv in Hw. rewrite (key_plain _ _ _ plain_input) in Hw. fold kt in Hw.
  destruct imgs as [|img0 imgs0].
  { injection Hrun as <- <-. rewrite Hw. simpl. split; [done|]. split.
    - intros x Hx. rewrite lookup_insert_ne; [done|]. intros <-. apply Hx. by eexists.
    - intros _. split; [by rewrite lookup_insert_eq|]. intros n.
      rewrite lookup_insert_ne; [done|]. intros Heq. by apply app_inv_head in Heq. }
  set (imgs := img0 :: imgs0) in *.
  destruct (makedirs _ w1) as [[e|[]] w2] eqn:E2;
    assert (cwd w2 = cwd w ∧
            files (disk w2) = <[kt ++ ["input.yml"] := yaml]> (files (disk w)))
      as [Hc2 Hf2]
      by (apply makedirs_disk in E2 as [Hc2 [[_ Hd]|[_ Hm]]];
          [ split; [congruence | by rewrite Hd, Hw]
          | split; [congruence|]; unfold Fs.makedirs in Hm;
            destruct (Path.fits _); [|done];
            destruct (Fs.mkdirs _ _ _ _); [|done];
            injection Hm as <-; simpl; by rewrite Hw ]).
  { injection Hrun as <- <-. split; [done|]. split; [|done].
    intros x Hx. rewrite Hf2, lookup_insert_ne; [done|]. intros <-. apply Hx. by eexists. }
  assert (HR : Path.key (cwd w2) (Path.join tmp "resources") = kt ++ ["resources"]).
  { by rewrite Hc2, (key_plain _ _ _ plain_resources). }
  pose proof (save_all_disk _ _ _ _ _ Hrun) as (Hc3 & _ & _ & Hframe & _).
  assert (Htarget : ∀ img, In img imgs →
            Path.key (cwd w2) (Path.join (Path.join tmp "resources") (filename img))
            = kt ++ ["resources"; filename img]).
  { intros img Hin. rewrite Forall_forall in Hp.
    rewrite (key_plain _ _ _ (Hp img (proj2 (list_elem_of_In _ _) Hin))), HR.
    by rewrite <- app_assoc. }
  split; [congruence|]. split.
  - intros x Hx. rewrite Hframe.
    + rewrite Hf2, lookup_insert_ne; [done|]. intros <-. apply Hx. by eexists.
    + intros img Hin. rewrite (Htarget img Hin). by apply Hout.
  - intros ->. split.
    + rewrite Hframe.
      * by rewrite Hf2, lookup_insert_eq.
      * intros img Hin. rewrite (Htarget img Hin). intros Heq.
        by apply app_inv_head in Heq.
    + intros n. pose proof (save_all_latest _ _ _ _ Hp Hrun n) as Hlat.
      rewrite HR, <- app_assoc in Hlat. etrans; [exact Hlat|].
      destruct (latest imgs n); [done|].
      rewrite Hf2, lookup_insert_ne; [done|]. intros Heq. by apply app_inv_head in Heq.
Qed.

(** Staging creates at most one directory, [resources] in the temporary
    directory, whatever the uploads are called. *)
Lemma stage_dirs yaml imgs tmp k w r ws :
  directory (disk w) (cwd w) tmp = Some k →
  stage yaml imgs tmp w = (r, ws) →
  ∀ x, ¬ Path.under k x → (x ∈ dirs (disk ws) ↔ x ∈ dirs (disk w)).
Proof.
  intros Hd Hrun x Hx. unfold stage, bind in Hrun.
  destruct (open_write _ _ w) as [[e|[]] w1] eqn:E;
    apply open_write_disk in E as [Hc [[[e' He'] Hd1]|[Hr' Hw]]]; try done.
  { injection Hrun as <- <-. by rewrite Hd1. }
  apply write_inv in Hw.
  assert (Hds1 : dirs (disk w1) = dirs (disk w)) by (by rewrite Hw).
  destruct imgs as [|img0 imgs0].
  { injection Hrun as <- <-. by rewrite Hds1. }
  destruct (makedirs _ w1) as [[e|[]] w2] eqn:E2;
    apply makedirs_disk in E2 as [Hc2 [[[e' He'] Hd2]|[Hr2 Hm]]]; try done.
  { injection Hrun as <- <-. by rewrite Hd2, Hds1. }
  apply (makedirs_inv _ _ _ _ k) in Hm;
    [|done|rewrite Hc; by rewrite (directory_same_dirs (disk w) (disk w1))].
  apply save_all_disk in Hrun as (_ & Hds & _).
  rewrite Hds, Hm. simpl. rewrite elem_of_union, elem_of_singleton, Hds1.
  split; [|by right]. intros [->|Hin]; [|done]. exfalso. apply Hx. by eexists.
Qed.

(** When staging ends well every upload has been written where its path
    string points, whatever it is called. *)
Lemma stage_targets yaml imgs tmp w ws :
  stage yaml imgs tmp w = (inr tt, ws) →
  ∀ img, In img imgs →
    is_Some (files (disk ws)
             !! Path.key (cwd w) (Path.join (Path.join tmp "resources") (filename img))).
Proof.
  intros Hrun. unfold stage, bind in Hrun.
  destruct (open_write _ _ w) as [[e|[]] w1] eqn:E; [done|].
  apply open_write_disk in E as [Hc _].
  destruct imgs as [|img0 imgs0]; [by intros ? []|].
  destruct (makedirs _ w1) as [[e|[]] w2] eqn:E2; [done|].
  apply makedirs_disk in E2 as [Hc2 _].
  apply save_all_disk in Hrun as (_ & _ & _ & _ & Hok).
  intros img Hin. rewrite <- Hc, <- Hc2. by apply Hok.
Qed.

Lemma rmtree_outside top d x :
  ¬ Path.under top x →
  files (Fs.rmtree top d) !! x = files d !! x ∧
  (x ∈ dirs (Fs.rmtree top d) ↔ x ∈ dirs d).
Proof.
  intros Hx. split; simpl.
  - destruct (files d !! x) as [b|] eqn:E.
    + by apply map_lookup_filter_Some.
    + apply map_lookup_filter_None. by left.
  - rewrite elem_of_filter. tauto.
Qed.

(** A request that got its temporary directory, seen from the disk: the
    directory is new, staging started from the disk as it was with that one
    directory more, the engine, if it ran, saw the staged disk; if it did
    not run, what is left is the staged disk without the temporary tree, or
    with it when the cleanup failed. *)
Lemma post_staged h req w r w' :
  post h req w = (r, w') →
  ∃ evs, log w' = log w ++ evs ∧
    ∀ tmp, In (EvMkdtemp tmp) evs →
      ∃ f w1 rs ws,
        yml_file req = Some f ∧
        cwd w1 = cwd w ∧
        directory (disk w1) (cwd w1) tmp = Some (Path.key (cwd w) tmp) ∧
        disk w1 = mkDisk (files (disk w)) ({[Path.key (cwd w) tmp]} ∪ dirs (disk w)) ∧
        stage (stream f) (images req) tmp w1 = (rs, ws) ∧
        (∀ argv seen, In (EvExec argv seen) evs → rs = inr tt ∧ seen = disk ws) ∧
        ((∀ argv seen, ¬ In (EvExec argv seen) evs) →
         disk w' = Fs.rmtree (Path.key (cwd w) tmp) (disk ws) ∨
         (r = inl (OSError "rmtree" tmp) ∧ disk w' = disk ws)).
Proof.
  intros Hrun. pose proof (post_engine_run _ _ _ _ _ Hrun) as (evs & Hl & Hcase).
  exists evs. split; [done|]. intros t Ht.
  apply post_summary in Hrun as [_ [(Hl0 & _)|Hrest]].
  { rewrite Hl0 in Hl. rewrite <- (app_nil_r (log w)) in Hl at 1.
    apply app_inv_head in Hl. by subst evs. }
  destruct Hrest
    as (f & fmt & p & tmp & w1 & rs & ws & rr & rc & Hy & _ & _ & Hmk & Hst & Hr & Hc).
  pose proof Hmk as Hmk0.
  apply mkdtemp_inv in Hmk
    as [Hcw [(e' & [=] & _)|(n & sfx & k & [= <-] & _ & _ & He & _ & _ & Hd & _)]].
  pose proof (entry_key _ _ _ _ He) as Hk.
  assert (Hdir : directory (disk w1) (cwd w1) tmp = Some (Path.key (cwd w) tmp)).
  { rewrite Hk, Hcw. apply (entry_directory (disk w)); [done| |]; rewrite Hd; simpl.
    - apply union_subseteq_r.
    - apply elem_of_union_l. by apply elem_of_singleton. }
  assert (Htmp : t = tmp).
  { destruct Hc as [(tried & e & Hp & _ & _ & Hlog & _)|[_ Hran]].
    - rewrite Hl in Hlog. apply app_inv_head in Hlog.
      rewrite Hlog in Ht.
      apply in_run in Ht as [[=]|[Hin|Hin]]; [done|inversion Hin| |by eapply plan_events].
      by destruct Hin as [[=]|[]].
    - destruct Hcase as [(Hno & _)|Hran'].
      + exfalso. destruct Hran as (_ & _ & [(_ & Hlog & _)|(_ & Hlog & _)]);
          rewrite Hl in Hlog; apply app_inv_head in Hlog;
          apply (Hno (command (Path.join tmp "input.yml") tmp fmt) (disk ws));
          rewrite Hlog; right; apply in_or_app; right; by left.
      + destruct Hran' as (? & ? & ? & tmp' & ? & ? & ? & _ & _ & _ & _ & Hr' & _ & Htmp' & _).
        rewrite (Htmp' _ Ht). destruct Hran as (_ & _ & [(_ & Hlog & _)|(_ & Hlog & _)]);
          rewrite Hl in Hlog; apply app_inv_head in Hlog;
          symmetry; apply Htmp'; rewrite Hlog; by left. }
  subst t. exists f, w1, rs, ws. rewrite Hk in *.
  split; [done|]. split; [done|]. split; [done|]. split; [done|]. split; [done|].
  destruct Hc as [(tried & e & Hp & _ & _ & Hlog & _ & Hdisk)|[-> Hran]].
  - rewrite Hl in Hlog. apply app_inv_head in Hlog. split.
    + intros argv seen Hin. exfalso. rewrite Hlog in Hin.
      apply in_run in Hin as [[=]|[Hin|Hin]];
        [inversion Hin | by destruct Hin as [[=]|[]] | by eapply plan_events].
    + intros _. rewrite <- Hk. destruct Hdisk as [[_ Hdw]|[-> Hdw]]; [by left|].
      right. by subst r.
  - destruct Hran as (_ & _ & Hlog).
    assert (Hin : In (EvExec (command (Path.join tmp "input.yml") tmp fmt) (disk ws)) evs).
    { destruct Hlog as [(_ & Hlog & _)|(_ & Hlog & _)];
        rewrite Hl in Hlog; apply app_inv_head in Hlog; rewrite Hlog;
        right; apply in_or_app; right; by left. }
    destruct Hcase as [(Hno & _)|Hran']; [by apply Hno in Hin|].
    destruct Hran' as (? & ? & ? & ? & ws' & ? & ? & _ & _ & _ & _ & _ & _ & _ & Hexec).
    split.
    + intros argv seen Hx. split; [done|].
      destruct (Hexec _ _ Hx) as [_ ->]. by destruct (Hexec _ _ Hin) as [_ ->].
    + intros Hno. by apply Hno in Hin.
Qed.

(** X7: with plain upload names, the handler touches nothing outside its
    temporary directory before the engine runs: outside it, the disk the
    engine sees is the disk as it was, files and directories; and when the
    engine never runs, so is the disk the request leaves. *)
Theorem staging_stays_in_tempdir h req w r w' :
  post h req w = (r, w') →
  Forall (λ img, plain (filename img) = true) (images req) →
  ∃ evs, log w' = log w ++ evs ∧
    ∀ tmp x, In (EvMkdtemp tmp) evs → ¬ Path.under (Path.key (cwd w) tmp) x →
      (∀ argv seen, In (EvExec argv seen) evs →
         files seen !! x = files (disk w) !! x ∧ (x ∈ dirs seen ↔ x ∈ dirs (disk w))) ∧
      ((∀ argv seen, ¬ In (EvExec argv seen) evs) →
         files (disk w') !! x = files (disk w) !! x ∧
         (x ∈ dirs (disk w') ↔ x ∈ dirs (disk w))).
Proof.
  intros Hrun Hp. apply post_staged in Hrun as (evs & Hl & Hst).
  exists evs. split; [done|]. intros tmp x Ht Hx.
  destruct (Hst tmp Ht) as (f & w1 & rs & ws & _ & Hcw & Hdir & Hd1 & Hstage & Hexec & Hno).
  pose proof (stage_files _ _ _ _ _ _ Hp Hstage) as (_ & Hfiles & _).
  rewrite Hcw in Hfiles. specialize (Hfiles x Hx).
  pose proof (stage_dirs _ _ _ _ _ _ _ Hdir Hstage x Hx) as Hdirs.
  rewrite Hd1 in Hfiles, Hdirs. simpl in Hfiles, Hdirs.
  assert (Hds : x ∈ dirs (disk ws) ↔ x ∈ dirs (disk w)).
  { rewrite Hdirs, elem_of_union, elem_of_singleton. split; [|by right].
    intros [->|Hin]; [|done]. exfalso. apply Hx. by exists []; rewrite app_nil_r. }
  split.
  - intros argv seen Hin. destruct (Hexec _ _ Hin) as [_ ->]. by split.
  - intros Hnone. destruct (Hno Hnone) as [->|[_ ->]]; [|by split].
    destruct (rmtree_outside (Path.key (cwd w) tmp) (disk ws) x Hx) as [Hf Hd].
    rewrite Hf, Hd. by split.
Qed.

Lemma staging_stays_in_tempdir_witness :
  let req := Demo.request None Demo.twice in
  let run := post Demo.host_ok req Demo.world in
  In (EvMkdtemp Demo.tmp) (log run.2) ∧
  ∃ evs, log run.2 = log Demo.world ++ evs ∧
    ∀ tmp x, In (EvMkdtemp tmp) evs → ¬ Path.under (Path.key (cwd Demo.world) tmp) x →
      (∀ argv seen, In (EvExec argv seen) evs →
         files seen !! x = files (disk Demo.world) !! x ∧
         (x ∈ dirs seen ↔ x ∈ dirs (disk Demo.world))) ∧
      ((∀ argv seen, ¬ In (EvExec argv seen) evs) →
         files (disk run.2) !! x = files (disk Demo.world) !! x ∧
         (x ∈ dirs (disk run.2) ↔ x ∈ dirs (disk Demo.world))).
Proof.
  intros req run. split; [vm_compute; auto|].
  apply (staging_stays_in_tempdir Demo.host_ok req Demo.world run.1 run.2).
  - apply surjective_pairing.
  - repeat constructor.
Defined.

(** X8: with plain upload names, whenever the engine runs (on any host, after
    any failures survived), the disk it sees has the uploaded description at
    [input.yml] in the temporary directory and, under [resources], each
    upload's name holding the last upload of that name. *)
Theorem engine_sees_staged_inputs h req w r w' :
  post h req w = (r, w') →
  Forall (λ img, plain (filename img) = true) (images req) →
  ∃ evs, log w' = log w ++ evs ∧
    ∀ tmp argv seen f,
      In (EvMkdtemp tmp) evs → In (EvExec argv seen) evs → yml_file req = Some f →
      files seen !! (Path.key (cwd w) tmp ++ ["input.yml"]) = Some (stream f) ∧
      ∀ img, In img (images req) →
        files seen !! (Path.key (cwd w) tmp ++ ["resources"; filename img])
        = latest (images req) (filename img).
Proof.
  intros Hrun Hp. apply post_staged in Hrun as (evs & Hl & Hst).
  exists evs. split; [done|]. intros tmp argv seen f Ht Hx Hy.
  destruct (Hst tmp Ht) as (f' & w1 & rs & ws & Hy' & Hcw & _ & Hd1 & Hstage & Hexec & _).
  rewrite Hy in Hy'. injection Hy' as <-.
  destruct (Hexec _ _ Hx) as [-> ->].
  pose proof (stage_files _ _ _ _ _ _ Hp Hstage) as (_ & _ & Hok).
  rewrite Hcw in Hok. destruct (Hok eq_refl) as [Hin Hres].
  split; [done|]. intros img Himg. rewrite Hres.
  destruct (latest_in _ _ Himg) as [b Hb]. by rewrite Hb.
Qed.

Lemma engine_sees_staged_inputs_witness :
  let req := Demo.request None Demo.twice in
  let run := post Demo.host_ok req Demo.world in
  (∃ seen, In (EvExec ["wireviz"; "/tmp/tmpk3x9q2ab/input.yml"; "-o"; "/tmp/tmpk3x9q2ab"]
                 seen) (log run.2)) ∧
  ∃ evs, log run.2 = log Demo.world ++ evs ∧
    ∀ tmp argv seen f,
      In (EvMkdtemp tmp) evs → In (EvExec argv seen) evs → yml_file req = Some f →
      files seen !! (Path.key (cwd Demo.world) tmp ++ ["input.yml"]) = Some (stream f) ∧
      ∀ img, In img (images req) →
        files seen !! (Path.key (cwd Demo.world) tmp ++ ["resources"; filename img])
        = latest (images req) (filename img).
Proof.
  intros req run. split; [eexists; vm_compute; do 5 right; left; reflexivity|].
  apply (engine_sees_staged_inputs Demo.host_ok req Demo.world run.1 run.2).
  - apply surjective_pairing.
  - repeat constructor.
Defined.

(** X9: an upload whose file name is an absolute path is saved at that path as
    the client gave it, not in the temporary directory: when the engine
    runs, the save has been made under that very name and a file is there. *)
Theorem absolute_upload_name_is_used_as_is h req w r w' :
  post h req w = (r, w') →
  ∃ evs, log w' = log w ++ evs ∧
    ∀ argv seen img,
      In (EvExec argv seen) evs → In img (images req) →
      Path.is_absolute (filename img) = true →
      In (EvSave (filename img)) evs ∧
      is_Some (files seen !! Path.key (cwd w) (filename img)).
Proof.
  intros Hrun. pose proof (post_engine_run _ _ _ _ _ Hrun) as (evs & Hl & Hcase).
  apply post_staged in Hrun as (evs' & Hl' & Hst).
  assert (evs' = evs) as -> by (rewrite Hl in Hl'; by apply app_inv_head in Hl').
  exists evs. split; [done|]. intros argv seen img Hx Himg Habs.
  destruct Hcase as [(Hno & _)|Hran]; [by apply Hno in Hx|].
  destruct Hran as (f & fmt & p & tmp & ws0 & rr & rc & _ & _ & _ & _ & Hran & _ & _).
  assert (Hjoin : Path.join (Path.join tmp "resources") (filename img) = filename img).
  { unfold Path.join at 1. unfold Path.is_absolute in Habs. by rewrite Habs. }
  assert (Hplan : In (EvSave (filename img)) (stage_plan tmp (images req))).
  { unfold stage_plan. right. destruct (images req) as [|i0 is0] eqn:Ei; [done|].
    right. rewrite <- Hjoin. by apply (in_map (λ img, EvSave (Path.join _ (filename img)))). }
  assert (Hlog : ∃ tail, evs = EvMkdtemp tmp :: stage_plan tmp (images req) ++ tail).
  { destruct Hran as (_ & _ & [(_ & Hlog & _)|(_ & Hlog & _)]);
      rewrite Hl in Hlog; apply app_inv_head in Hlog; eauto. }
  destruct Hlog as [tail Hlog].
  assert (Ht : In (EvMkdtemp tmp) evs) by (rewrite Hlog; by left).
  destruct (Hst tmp Ht) as (f' & w1 & rs & ws & _ & Hcw & _ & _ & Hstage & Hexec & _).
  destruct (Hexec _ _ Hx) as [-> ->]. split.
  - rewrite Hlog. right. apply in_or_app. by left.
  - pose proof (stage_targets _ _ _ _ _ Hstage img Himg) as Hsome.
    by rewrite Hjoin, Hcw in Hsome.
Qed.

Lemma absolute_upload_name_is_used_as_is_witness :
  let req := Demo.request None Demo.stray in
  let run := post Demo.host_ok req Demo.world in
  (∃ seen, In (EvExec ["wireviz"; "/tmp/tmpk3x9q2ab/input.yml"; "-o"; "/tmp/tmpk3x9q2ab"]
                 seen) (log run.2)) ∧
  files (disk run.2) !! ["srv"; "stray.png"] = Some (Demo.data "stray") ∧
  ∃ evs, log run.2 = log Demo.world ++ evs ∧
    ∀ argv seen img,
      In (EvExec argv seen) evs → In img (images req) →
      Path.is_absolute (filename img) = true →
      In (EvSave (filename img)) evs ∧
      is_Some (files seen !! Path.key (cwd Demo.world) (filename img)).
Proof.
  intros req run. split; [eexists; vm_compute; do 4 right; left; reflexivity|].
  split; [reflexivity|].
  apply (absolute_upload_name_is_used_as_is Demo.host_ok req Demo.world run.1 run.2).
  apply surjective_pairing.
Defined.

End StagedDisk.

(** ** The fixed names of the staged description and of the result *)

Section FixedNames.
Import RenderRegular.

(** Staging begins with the write of the description, whatever comes of
    it. *)
Lemma stage_first yaml imgs tmp w r ws :
  stage yaml imgs tmp w = (r, ws) →
  ∃ rest, log ws = log w ++ EvOpenWrite (Path.join tmp "input.yml") :: rest.
Proof.
  unfold stage. unfold bind at 1.
  destruct (open_write _ _ w) as [[e|[]] w1] eqn:E; apply open_write_log in E.
  { intros [= _ <-]. by exists []. }
  intros Hrun.
  assert (Htail : emits (λ _, True)
            (match imgs with
             | [] => ret tt
             | _ => makedirs (Path.join tmp "resources") ;;
                    for_each imgs
                      (λ img, save (stream img)
                                (Path.join (Path.join tmp "resources") (filename img)))
             end)).
  { destruct imgs; [apply emits_ret|]. apply emits_bind.
    - eapply emits_weaken; [|apply emits_makedirs]. done.
    - intros _. apply emits_for_each. intros x.
      eapply emits_weaken; [|apply emits_save]. done. }
  apply Htail in Hrun as (_ & evs & Hl & _). exists evs.
  by rewrite Hl, E, <- app_assoc.
Qed.

(** So does the block under [with], and so does what a request logs after
    its temporary directory. *)
Lemma render_first h yaml imgs fmt tmp w r w' :
  render h yaml imgs fmt tmp w = (r, w') →
  ∃ rest, log w' = log w ++ EvOpenWrite (Path.join tmp "input.yml") :: rest.
Proof.
  intros Hrun. pose proof (emits_render _ _ _ _ _ _ _ _ Hrun) as (_ & evs & Hl & _).
  apply render_inv in Hrun as (rs & ws & Hst & Hrest).
  pose proof (emits_stage _ _ _ _ _ _ Hst) as (_ & evs1 & Hl1 & _).
  apply stage_first in Hst as [rest Hfirst].
  assert (Hgrow : ∃ more, log w' = log ws ++ more).
  { destruct rs as [e|[]]; [destruct Hrest as [_ ->]; exists []; by rewrite app_nil_r|].
    destruct Hrest as (ri & wi & Hi & Hrest).
    apply emits_invoke in Hi as (_ & evs2 & Hl2 & _).
    destruct ri as [e|[]]; [destruct Hrest as [_ ->]; by exists evs2|].
    apply emits_open_read in Hrest as (_ & evs3 & Hl3 & _).
    exists (evs2 ++ evs3). by rewrite Hl3, Hl2, app_assoc. }
  destruct Hgrow as [more Hmore]. exists (rest ++ more).
  by rewrite Hmore, Hfirst, <- app_assoc.
Qed.

Lemma post_first_write h req w r w' evs tmp :
  post h req w = (r, w') → log w' = log w ++ evs → In (EvMkdtemp tmp) evs →
  ∃ rest, evs = EvMkdtemp tmp :: EvOpenWrite (Path.join tmp "input.yml") :: rest.
Proof.
  intros Hrun Hl Ht. pose proof (post_events _ _ _ _ _ Hrun) as [_ [Hl0|Hev]].
  { rewrite Hl0 in Hl. rewrite <- (app_nil_r (log w)) in Hl at 1.
    apply app_inv_head in Hl. by subst evs. }
  destruct Hev as (_ & fmt & t & _ & mid & _ & _ & _ & _ & _ & Hlog & Hf & _).
  rewrite Hl in Hlog. apply app_inv_head in Hlog. subst evs.
  assert (tmp = t) as ->.
  { destruct Ht as [[= <-]|Ht]; [done|]. exfalso.
    apply in_app_or in Ht as [Ht|[Ht|[]]]; [|done].
    rewrite Forall_forall in Hf. apply list_elem_of_In, Hf in Ht. inversion Ht. }
  apply post_inv in Hrun.
  destruct Hrun as [e _|f fmt' p e w1 Hy Hm Hs Hmk
                    |f fmt' p tmp w1 rr w2 rc w3 Hy Hm Hs Hmk Hr Hcl].
  - rewrite <- (app_nil_r (log w)) in Hl at 1. by apply app_inv_head in Hl.
  - apply mkdtemp_inv in Hmk as [_ [(e' & _ & Hl1 & _)|(n & ? & ? & [=] & _)]].
    rewrite Hl1 in Hl. rewrite <- (app_nil_r (log w)) in Hl at 1.
    by apply app_inv_head in Hl.
  - apply mkdtemp_inv in Hmk as [_ [(e' & [=] & _)|(n & sfx & k & [= <-] & Hl1 & _)]].
    apply render_first in Hr as [rest Hfirst].
    apply cleanup_inv in Hcl as (Hl3 & _).
    rewrite Hl3, Hfirst, Hl1, <- !app_assoc in Hl. apply app_inv_head in Hl.
    simpl in Hl. injection Hl as <- Hl. eexists. by rewrite <- Hl.
Qed.

(** When staging ends well, [input.yml] in the temporary directory holds
    the description, unless the path string of an upload names that very
    location. *)
Lemma stage_input yaml imgs tmp w ws :
  stage yaml imgs tmp w = (inr tt, ws) →
  (∀ img, In img imgs →
     Path.key (cwd w) (Path.join (Path.join tmp "resources") (filename img))
     ≠ Path.key (cwd w) (Path.join tmp "input.yml")) →
  files (disk ws) !! Path.key (cwd w) (Path.join tmp "input.yml") = Some yaml.
Proof.
  intros Hrun Hne. unfold stage, bind in Hrun.
  destruct (open_write _ _ w) as [[e|[]] w1] eqn:E; [done|].
  apply open_write_disk in E as [Hc [[[e [=]] _]|[_ Hw]]].
  apply write_inv in Hw.
  destruct imgs as [|img0 imgs0].
  { injection Hrun as <-. rewrite Hw. simpl. by rewrite lookup_insert_eq. }
  destruct (makedirs _ w1) as [[e|[]] w2] eqn:E2; [done|].
  apply makedirs_disk in E2 as [Hc2 [[[e [=]] _]|[_ Hm]]].
  assert (Hf2 : files (disk w2) = files (disk w1)).
  { unfold Fs.makedirs in Hm. destruct (Path.fits _); [|done].
    destruct (Fs.mkdirs _ _ _ _); [|done]. by injection Hm as <-. }
  apply save_all_disk in Hrun as (_ & _ & _ & Hframe & _).
  rewrite Hframe.
  - rewrite Hf2, Hw. simpl. by rewrite lookup_insert_eq.
  - intros img Hin Heq. apply (Hne img Hin). by rewrite Heq, Hc2, Hc.
Qed.

(** C10: whatever the client called the uploaded file, the description is
    staged as [input.yml] in the temporary directory and the result is read
    from [input.<fmt>] there.  The write of [input.yml] is the first host
    call after the directory is made and the only file the handler opens
    for writing; the only file it opens for reading is [input.<fmt>].
    When the engine runs, it is given that [input.yml], which on the disk
    it sees holds the uploaded description (unless the path string of an
    uploaded image names that very file), and the body of a response is
    what [input.<fmt>] holds on the disk the engine left.  Uploaded under
    another name, the same request leaves the same world behind (disk, log
    of host calls, console) and gives the same result up to the headers of
    the response, unless one of the two names has no final component to put
    a suffix on, in which case that request is refused with a [ValueError]
    before anything is staged. *)
Theorem staged_paths_fixed h req w r w' :
  post h req w = (r, w') →
  (∃ evs, log w' = log w ++ evs ∧
     ∀ tmp, In (EvMkdtemp tmp) evs →
       (∃ rest,
          evs = EvMkdtemp tmp :: EvOpenWrite (Path.join tmp "input.yml") :: rest) ∧
       (∀ p, In (EvOpenWrite p) evs → p = Path.join tmp "input.yml") ∧
       (∀ p, In (EvOpenRead p) evs →
          ∃ fmt,
            Core.mimetype_to_type (Py.or_else (accept req) "image/svg+xml") = inr fmt ∧
            p = Path.join tmp ("input." +:+ fmt)) ∧
       (∀ argv seen, In (EvExec argv seen) evs →
          ∃ f fmt,
            yml_file req = Some f ∧
            Core.mimetype_to_type (Py.or_else (accept req) "image/svg+xml") = inr fmt ∧
            argv = command (Path.join tmp "input.yml") tmp fmt ∧
            ((∀ img, In img (images req) →
                Path.key (cwd w) (Path.join (Path.join tmp "resources") (filename img))
                ≠ Path.key (cwd w) (Path.join tmp "input.yml")) →
             files seen !! Path.key (cwd w) (Path.join tmp "input.yml")
             = Some (stream f)) ∧
            (∀ resp, r = inr resp →
               Fs.read (cwd w) (Path.join tmp ("input." +:+ fmt))
                 (after (run_process h argv seen)) = Some (body resp)))) ∧
  (∀ n, ∃ r' w'',
     post h (renamed req n) w = (r', w'') ∧
     ((w'' = w' ∧ same_but_headers r r') ∨
      (∃ msg, r' = inl (ValueError msg) ∧ w'' = w) ∨
      (∃ msg, r = inl (ValueError msg) ∧ w' = w))).
Proof.
  intros Hrun. split.
  - pose proof (post_engine_run _ _ _ _ _ Hrun) as (evs1 & Hl1 & Hcase).
    pose proof (post_staged _ _ _ _ _ Hrun) as (evs2 & Hl2 & Hstaged).
    pose proof (post_events _ _ _ _ _ Hrun) as [Hc [Hl|Hev]].
    { nothing_logged. }
    destruct Hev as (f & fmt & tmp & sfx & evs & w2 & rc0 & _ & Hm & _ & Hl & Hf & _).
    eexists. split; [exact Hl|]. rewrite Forall_forall in Hf.
    assert (Hev : ∀ ev, In ev (EvMkdtemp tmp :: evs ++ [EvCleanup tmp]) →
              ev = EvMkdtemp tmp ∨ render_event tmp fmt ev ∨ ev = EvCleanup tmp).
    { intros ev [<-|Hin]; [by left|].
      apply in_app_or in Hin as [Hin|[<-|[]]]; [|by right; right].
      right; left. by apply Hf, list_elem_of_In. }
    rewrite Hl in Hl1, Hl2. apply app_inv_head in Hl1, Hl2. subst evs1 evs2.
    intros t Ht. pose proof Ht as Ht0.
    apply Hev in Ht as [[= <-]|[Ht|[=]]]; [|inversion Ht].
    split; [by apply (post_first_write _ _ _ _ _ _ _ Hrun Hl)|]. split; [|split].
    + intros p Hp. apply Hev in Hp as [[=]|[Hp|[=]]]. by inversion Hp.
    + intros p Hp. apply Hev in Hp as [[=]|[Hp|[=]]]. inversion Hp as [| | | |Heq].
      exists fmt. split; [done|]. by rewrite staged_stem.
    + intros argv seen Hx.
      destruct Hcase as [(Hno & _)|Hran]; [by apply Hno in Hx|].
      destruct Hran
        as (f1 & fmt1 & p & tmp1 & ws & rr & rc & Hy & Hm1 & _ & Hr & Hran & _ & Htmp & Hexec).
      rewrite Hm in Hm1. injection Hm1 as <-.
      pose proof (Htmp _ Ht0) as <-.
      destruct (Hexec _ _ Hx) as [-> ->].
      destruct (Hstaged _ Ht0)
        as (f2 & w1 & rs & ws' & Hy2 & Hcw & _ & _ & Hst & Hseen & _).
      rewrite Hy in Hy2. injection Hy2 as <-.
      destruct (Hseen _ _ Hx) as [-> Hws].
      exists f1, fmt. split; [done|]. split; [done|]. split; [done|]. split.
      * intros Hne. rewrite Hws, <- Hcw. apply (stage_input _ _ _ _ _ Hst).
        intros img Hin. rewrite Hcw. by apply Hne.
      * intros resp ->. destruct rc as [e|[]]; [done|].
        destruct rr as [e|payload]; [done|]. injection Hr as ->. simpl.
        destruct Hran as (_ & _ & [(_ & _ & [=])|(_ & _ & Hread)]).
        by destruct Hread as [[=]|(b & [= <-] & Hread)].
  - intros n. revert Hrun.
    unfold post, renamed, parse_args, bind, lift, ret.
    destruct (yml_file req) as [f|]; simpl.
    2:{ intros [= <- <-]. eexists _, _. split; [done|]. by left. }
    destruct (Core.mimetype_to_type _) as [e|fmt]; simpl.
    { intros [= <- <-]. eexists _, _. split; [done|]. by left. }
    destruct (PurePath.with_suffix (PurePath.parse (filename f)) _) as [e|q] eqn:E;
      destruct (PurePath.with_suffix (PurePath.parse n) _) as [e'|q'] eqn:E'; simpl.
    + intros [= <- <-]. apply with_suffix_error in E as [msg ->].
      eexists _, _. split; [done|]. right. right. eauto.
    + intros [= <- <-]. apply with_suffix_error in E as [msg ->].
      destruct (with_TemporaryDirectory _ w) as [[e|payload] w1];
        eexists _, _; (split; [done|]); right; right; eauto.
    + intros _. apply with_suffix_error in E' as [msg ->].
      eexists _, _. split; [done|]. right. left. eauto.
    + destruct (with_TemporaryDirectory _ w) as [[e|payload] w1];
        intros [= <- <-]; eexists _, _; (split; [done|]); by left.
Qed.

Lemma staged_paths_fixed_witness :
  let req := Demo.request (Some "image/png") Demo.twice in
  let run := post Demo.host_ok req Demo.world in
  (∃ seen,
     In (EvExec Demo.argv_png seen) (log run.2) ∧
     files seen !! ["tmp"; "tmpk3x9q2ab"; "input.yml"] = Some (Demo.data "connectors: {}")) ∧
  In (EvOpenRead "/tmp/tmpk3x9q2ab/input.png") (log run.2) ∧
  (∃ evs, log run.2 = log Demo.world ++ evs ∧
     ∀ tmp, In (EvMkdtemp tmp) evs →
       (∃ rest,
          evs = EvMkdtemp tmp :: EvOpenWrite (Path.join tmp "input.yml") :: rest) ∧
       (∀ p, In (EvOpenWrite p) evs → p = Path.join tmp "input.yml") ∧
       (∀ p, In (EvOpenRead p) evs →
          ∃ fmt,
            Core.mimetype_to_type (Py.or_else (accept req) "image/svg+xml") = inr fmt ∧
            p = Path.join tmp ("input." +:+ fmt)) ∧
       (∀ argv seen, In (EvExec argv seen) evs →
          ∃ f fmt,
            yml_file req = Some f ∧
            Core.mimetype_to_type (Py.or_else (accept req) "image/svg+xml") = inr fmt ∧
            argv = command (Path.join tmp "input.yml") tmp fmt ∧
            ((∀ img, In img (images req) →
                Path.key (cwd Demo.world)
                  (Path.join (Path.join tmp "resources") (filename img))
                ≠ Path.key (cwd Demo.world) (Path.join tmp "input.yml")) →
             files seen !! Path.key (cwd Demo.world) (Path.join tmp "input.yml")
             = Some (stream f)) ∧
            (∀ resp, run.1 = inr resp →
               Fs.read (cwd Demo.world) (Path.join tmp ("input." +:+ fmt))
                 (after (run_process Demo.host_ok argv seen)) = Some (body resp)))) ∧
  (∀ n, ∃ r' w'',
     post Demo.host_ok (renamed req n) Demo.world = (r', w'') ∧
     ((w'' = run.2 ∧ same_but_headers run.1 r') ∨
      (∃ msg, r' = inl (ValueError msg) ∧ w'' = Demo.world) ∨
      (∃ msg, run.1 = inl (ValueError msg) ∧ run.2 = Demo.world))).
Proof.
  intros req run.
  split; [eexists; split; [vm_compute; do 5 right; left; reflexivity | reflexivity]|].
  split; [vm_compute; auto 10|].
  apply (staged_paths_fixed Demo.host_ok req Demo.world run.1 run.2).
  apply surjective_pairing.
Defined.

End FixedNames.


(** ** The name offered for download *)

Section Download.
Import RenderRegular.

Lemma has_char_append c (a b : string) :
  Str.has_char c (a +:+ b) = Str.has_char c a || Str.has_char c b.
Proof.
  induction a as [|x a IH]; [done|].
  rewrite append_cons. simpl. by rewrite IH, orb_assoc.
Qed.

Lemma has_char_substring c n m s :
  Str.has_char c s = false → Str.has_char c (String.substring n m s) = false.
Proof.
  revert n m. induction s as [|x s IH]; intros [|n] [|m]; simpl; try done.
  - intros H. apply orb_false_iff in H as [Hx Hs]. rewrite Hx. simpl. by apply IH.
  - intros H. apply orb_false_iff in H as [_ Hs]. by apply (IH n 0%nat).
  - intros H. apply orb_false_iff in H as [_ Hs]. by apply (IH n (S m)).
Qed.

(** No field of [s.split(sep)] has the separator in it. *)
Lemma split_fields sep s :
  Forall (λ x, Str.has_char sep x = false) (Str.split sep s).
Proof.
  induction s as [|c s IH]; simpl; [by repeat constructor|].
  destruct (Ascii.eqb c sep) eqn:E; [by constructor|].
  destruct (Str.split sep s) as [|f fs]; [repeat constructor; simpl; by rewrite E|].
  apply Forall_cons in IH as [Hf Hfs]. constructor; [|done]. simpl. by rewrite E, Hf.
Qed.

Lemma last_Forall {A} (P : A → Prop) l d : Forall P l → P d → P (List.last l d).
Proof.
  induction l as [|x [|y l] IH]; intros Hl Hd; [done|by apply Forall_cons in Hl as [? _]|].
  apply Forall_cons in Hl as [_ Hl]. by apply IH.
Qed.

(** The final component of a path has no slash. *)
Lemma name_no_slash s : Str.has_char "/" (PurePath.name (PurePath.parse s)) = false.
Proof.
  unfold PurePath.name, PurePath.parse. simpl.
  apply (last_Forall (λ x, Str.has_char "/" x = false)); [|done].
  apply Forall_forall. intros x Hx.
  apply list_elem_of_In, filter_In in Hx as [Hx _]. apply list_elem_of_In in Hx.
  by apply (proj1 (Forall_forall _ _) (split_fields "/" s)).
Qed.

Lemma stem_no_slash s : Str.has_char "/" (PurePath.stem (PurePath.parse s)) = false.
Proof.
  unfold PurePath.stem. pose proof (name_no_slash s) as Hn.
  destruct (PurePath.has_suffix _); [|done].
  unfold PurePath.slice. by apply has_char_substring.
Qed.

(** X10: whatever file name the client sent with the description, the name a
    successful response offers for download is not empty and has no slash:
    it names a file, never a path. *)
Theorem download_name_is_a_bare_name h req w resp w' :
  post h req w = (inr resp, w') →
  ∃ n, headers resp = [("Content-Disposition", "attachment; filename=" +:+ n)] ∧
       n ≠ "" ∧ Str.has_char "/" n = false.
Proof.
  intros Hrun. apply post_inv in Hrun.
  inversion Hrun as [|
                     |f fmt p tmp w1 rr w2 rc w3 Hy Hm Hs Ht Hr Hcl Hres Hw].
  destruct rc as [e|[]]; [done|]. destruct rr as [e|payload]; [done|].
  injection Hres as <-.
  exists (PurePath.name p). split; [done|].
  rewrite (with_suffix_name _ _ _ Hs). split.
  - rewrite append_cons. by destruct (PurePath.stem _).
  - rewrite has_char_append, stem_no_slash.
    unfold PurePath.with_suffix in Hs.
    by destruct (Str.has_char "/" ("." +:+ fmt)).
Qed.

Lemma download_name_is_a_bare_name_witness :
  let req := mkRequest (Some "image/png")
               (Some (mkFile "../../etc/harness.v2.yml" (Demo.data "connectors: {}"))) [] in
  let run := post Demo.host_ok req Demo.world in
  headers (mkResponse (Demo.data "PNG") "image/png"
             [("Content-Disposition", "attachment; filename=harness.v2.png")])
  = [("Content-Disposition", "attachment; filename=harness.v2.png")] ∧
  ∃ n, [("Content-Disposition", "attachment; filename=harness.v2.png")]
       = [("Content-Disposition", "attachment; filename=" +:+ n)] ∧
       n ≠ "" ∧ Str.has_char "/" n = false.
Proof.
  intros req run. split; [reflexivity|].
  apply (download_name_is_a_bare_name Demo.host_ok req Demo.world
           (mkResponse (Demo.data "PNG") "image/png"
              [("Content-Disposition", "attachment; filename=harness.v2.png")]) run.2).
  vm_compute. reflexivity.
Defined.

End Download.

